(** * process_cursor_links.py: version parsing, download links, renderers

    A shallow embedding of [src/process_cursor_links.py].

    Python [str] values are sequences of Unicode code points; they are
    modelled as lists of code points ([N]).  The built-in string methods the
    program calls ([str.strip], [str.split] with a one-character separator,
    f-string concatenation) are modelled on such lists.  Exceptions are
    modelled with a small error monad. *)

From Stdlib Require Import List NArith Bool Arith Lia.
From Stdlib Require Strings.String Strings.Byte.
Import ListNotations String.StringSyntax.
Open Scope string_scope.
Open Scope list_scope.

Set Implicit Arguments.

(* ================================================================= *)
(** ** Python strings *)

Module PyStr.

(** A character is a Unicode code point. *)
Definition char := N.
Definition str := list char.

(** Decoding of the UTF-8 bytes of a literal of this file into code
    points, so that the literals below can be written as in the source. *)
Definition cont (b : N) : N := N.land b 63.

Fixpoint utf8_decode (fuel : nat) (bs : list N) : str :=
  match fuel with
  | O => []
  | S fuel' =>
      match bs with
      | [] => []
      | b0 :: r0 =>
          if N.ltb b0 128 then b0 :: utf8_decode fuel' r0
          else if N.ltb b0 224 then
            match r0 with
            | b1 :: r1 =>
                (N.shiftl (N.land b0 31) 6 + cont b1)%N :: utf8_decode fuel' r1
            | _ => []
            end
          else if N.ltb b0 240 then
            match r0 with
            | b1 :: b2 :: r2 =>
                (N.shiftl (N.land b0 15) 12 + N.shiftl (cont b1) 6 + cont b2)%N
                  :: utf8_decode fuel' r2
            | _ => []
            end
          else
            match r0 with
            | b1 :: b2 :: b3 :: r3 =>
                (N.shiftl (N.land b0 7) 18 + N.shiftl (cont b1) 12
                 + N.shiftl (cont b2) 6 + cont b3)%N
                  :: utf8_decode fuel' r3
            | _ => []
            end
      end
  end.

Definition lit (s : String.string) : str :=
  let bs := map Byte.to_N (String.list_byte_of_string s) in
  utf8_decode (length bs) bs.

Definition nl : char := 10%N.
Definition comma : char := 44%N.
Definition dquote : char := 34%N.

(** [str.isspace] on one character: the code points CPython's
    [_PyUnicode_IsWhitespace] accepts. *)
Definition isspace (c : char) : bool :=
  (N.leb 9 c && N.leb c 13) || (N.leb 28 c && N.leb c 32)
  || N.eqb c 133 || N.eqb c 160 || N.eqb c 5760
  || (N.leb 8192 c && N.leb c 8202)
  || N.eqb c 8232 || N.eqb c 8233 || N.eqb c 8239 || N.eqb c 8287
  || N.eqb c 12288.

(** [s.lstrip()], [s.rstrip()], [s.strip()] without argument. *)
Fixpoint lstrip (s : str) : str :=
  match s with
  | [] => []
  | c :: s' => if isspace c then lstrip s' else s
  end.

Definition rstrip (s : str) : str := rev (lstrip (rev s)).

Definition strip (s : str) : str := rstrip (lstrip s).

(** [s.split(sep)] for a one-character separator [sep]: the pieces between
    the occurrences of [sep]; never the empty list. *)
Fixpoint split (sep : char) (s : str) : list str :=
  match s with
  | [] => [[]]
  | c :: s' =>
      if N.eqb c sep then [] :: split sep s'
      else match split sep s' with
           | h :: t => (c :: h) :: t
           | [] => [[c]]
           end
  end.

(** [sep.join(pieces)]. *)
Fixpoint join (sep : str) (pieces : list str) : str :=
  match pieces with
  | [] => []
  | [p] => p
  | p :: rest => p ++ sep ++ join sep rest
  end.

(** Truth value of a string: [not s] holds for the empty string only. *)
Definition is_empty (s : str) : bool :=
  match s with [] => true | _ :: _ => false end.

Fixpoint eqb (a b : str) : bool :=
  match a, b with
  | [], [] => true
  | x :: a', y :: b' => N.eqb x y && eqb a' b'
  | _, _ => false
  end.

End PyStr.

Import PyStr.

(* ================================================================= *)
(** ** Exceptions and dictionaries *)

Inductive exn : Type :=
| ValueError      (* tuple unpacking of a wrong number of values *)
| KeyError        (* subscript of a dictionary at a missing key *)
| AttributeError. (* method call on an object without that method *)

(** The outcome of running Python code: a returned value or a raised
    exception, which propagates to the caller. *)
Inductive result (A : Type) : Type :=
| Ok (a : A)
| Raise (e : exn).

Arguments Ok {A} a.
Arguments Raise {A} e.

Definition bind {A B : Type} (m : result A) (k : A -> result B) : result B :=
  match m with
  | Ok a => k a
  | Raise e => Raise e
  end.

Notation "x <- m ;; k" := (bind m (fun x => k))
  (at level 61, m at next level, right associativity).
Notation "' p <- m ;; k" := (bind m (fun x => match x with p => k end))
  (at level 61, p pattern, m at next level, right associativity).

(** A [dict] with string keys keeps its entries in insertion order, and the
    program iterates over them, so it is an association list. *)
Definition dict (V : Type) : Type := list (str * V).

(** [d[key]]. *)
Fixpoint getitem {V : Type} (d : dict V) (key : str) : result V :=
  match d with
  | [] => Raise KeyError
  | (k, v) :: d' => if PyStr.eqb k key then Ok v else getitem d' key
  end.

(** [d.items()]. *)
Definition items {V : Type} (d : dict V) : list (str * V) := d.

(** [a, b = parts]: unpacking into exactly two targets. *)
Definition unpack2 (parts : list str) : result (str * str) :=
  match parts with
  | [a; b] => Ok (a, b)
  | _ => Raise ValueError
  end.

(* ================================================================= *)
(** ** [CursorVersion] *)

Record CursorVersion : Type := mkCursorVersion {
  version : str;
  build_id : str
}.

Definition get_download_links (self : CursorVersion) : dict (dict str) :=
  let base_url := lit "https://downloader.cursor.sh/builds/" ++ build_id self in
  [ (lit "windows",
      [ (lit "x64", base_url ++ lit "/windows/nsis/x64");
        (lit "arm64", base_url ++ lit "/windows/nsis/arm64") ]);
    (lit "mac",
      [ (lit "universal", base_url ++ lit "/mac/installer/universal");
        (lit "arm64", base_url ++ lit "/mac/installer/arm64");
        (lit "x64", base_url ++ lit "/mac/installer/x64") ]);
    (lit "linux",
      [ (lit "x64", base_url ++ lit "/linux/appImage/x64") ]) ].

(* ================================================================= *)
(** ** [parse_versions] *)

(** The [for line in ...] loop, with the list [versions] it appends to. *)
Fixpoint parse_lines (lines : list str) (versions : list CursorVersion)
  : result (list CursorVersion) :=
  match lines with
  | [] => Ok versions
  | line :: rest =>
      if is_empty line then parse_lines rest versions
      else
        '(v, b) <- unpack2 (split comma (strip line)) ;;
        parse_lines rest (versions ++ [mkCursorVersion v b])
  end.

Definition parse_versions (data : str) : result (list CursorVersion) :=
  parse_lines (split nl (strip data)) [].

(* ================================================================= *)
(** ** [generate_markdown] *)

Definition md_windows_x64 : str :=
  lit "# 🖥️ Windows

## x64
<details>
<summary style=" ++ [dquote] ++ lit "font-size:1.2em" ++ [dquote] ++ lit ">📦 Windows x64 安装包</summary>

| 版本 | 下载链接 |
|------|----------|
".

Definition md_windows_arm64 : str :=
  lit "
</details>

## ARM64 
<details>
<summary style=" ++ [dquote] ++ lit "font-size:1.2em" ++ [dquote] ++ lit ">📱 Windows ARM64 安装包</summary>

| 版本 | 下载链接 |
|------|----------|
".

Definition md_mac_universal : str :=
  lit "
</details>

# 🍎 macOS

## Universal
<details>
<summary style=" ++ [dquote] ++ lit "font-size:1.2em" ++ [dquote] ++ lit ">🎯 macOS Universal 安装包</summary>

| 版本 | 下载链接 |
|------|----------|
".

Definition md_mac_arm64 : str :=
  lit "
</details>

## ARM64
<details>
<summary style=" ++ [dquote] ++ lit "font-size:1.2em" ++ [dquote] ++ lit ">💪 macOS ARM64 安装包</summary>

| 版本 | 下载链接 |
|------|----------|
".

Definition md_mac_x64 : str :=
  lit "
</details>

## Intel
<details>
<summary style=" ++ [dquote] ++ lit "font-size:1.2em" ++ [dquote] ++ lit ">💻 macOS Intel 安装包</summary>

| 版本 | 下载链接 |
|------|----------|
".

Definition md_linux_x64 : str :=
  lit "
</details>

# 🐧 Linux

## x64
<details>
<summary style=" ++ [dquote] ++ lit "font-size:1.2em" ++ [dquote] ++ lit ">🎮 Linux x64 AppImage</summary>

| 版本 | 下载链接 |
|------|----------|
".

Definition md_style : str :=
  lit "
</details>

<style>
details {
    margin: 1em 0;
    padding: 0.5em 1em;
    background: #f8f9fa;
    border-radius: 8px;
    box-shadow: 0 2px 4px rgba(0,0,0,0.1);
}

summary {
    cursor: pointer;
    font-weight: bold;
    margin: -0.5em -1em;
    padding: 0.5em 1em;
}

summary:hover {
    background: #f1f3f5;
}

table {
    width: 100%;
    border-collapse: collapse;
    margin-top: 1em;
}

th, td {
    padding: 0.5em;
    text-align: left;
    border-bottom: 1px solid #dee2e6;
}

tr:hover {
    background: #f1f3f5;
}

a {
    color: #0366d6;
    text-decoration: none;
}

a:hover {
    text-decoration: underline;
}
</style>
".

(** One pass of [for version in versions: md += f"| ... |\n"], for the
    subscripts [links[platform][arch]]. *)
Fixpoint md_rows (versions : list CursorVersion) (platform arch : str)
  (md : str) : result str :=
  match versions with
  | [] => Ok md
  | v :: rest =>
      let links := get_download_links v in
      archs <- getitem links platform ;;
      url <- getitem archs arch ;;
      md_rows rest platform arch
        (md ++ lit "| " ++ version v ++ lit " | [下载](" ++ url ++ lit ") |"
            ++ [nl])
  end.

Definition generate_markdown (versions : list CursorVersion) : result str :=
  let md := md_windows_x64 in
  md <- md_rows versions (lit "windows") (lit "x64") md ;;
  let md := md ++ md_windows_arm64 in
  md <- md_rows versions (lit "windows") (lit "arm64") md ;;
  let md := md ++ md_mac_universal in
  md <- md_rows versions (lit "mac") (lit "universal") md ;;
  let md := md ++ md_mac_arm64 in
  md <- md_rows versions (lit "mac") (lit "arm64") md ;;
  let md := md ++ md_mac_x64 in
  md <- md_rows versions (lit "mac") (lit "x64") md ;;
  let md := md ++ md_linux_x64 in
  md <- md_rows versions (lit "linux") (lit "x64") md ;;
  let md := md ++ md_style in
  Ok md.

(* ================================================================= *)
(** ** [main] *)

(** The objects [json.dump] receives: strings, lists and dictionaries. *)
#[local] Set Warnings "-register-all".
Inductive pyobj : Type :=
| PStr (s : str)
| PList (l : list pyobj)
| PDict (d : dict pyobj).

Definition obj_of_links (links : dict (dict str)) : pyobj :=
  PDict (map (fun pa : str * dict str =>
                (fst pa,
                 PDict (map (fun au : str * str => (fst au, PStr (snd au)))
                            (snd pa))))
             links).

(** [o.append(item)]: defined on lists, which it changes in place. *)
Definition append (o item : pyobj) : result pyobj :=
  match o with
  | PList l => Ok (PList (l ++ [item]))
  | _ => Raise AttributeError
  end.

(** [d[key].append(item)], returning the dictionary after the update of the
    list it holds under [key]. *)
Fixpoint getitem_append (d : dict pyobj) (key : str) (item : pyobj)
  : result (dict pyobj) :=
  match d with
  | [] => Raise KeyError
  | (k, v) :: d' =>
      if PyStr.eqb k key then
        v' <- append v item ;; Ok ((k, v') :: d')
      else
        d'' <- getitem_append d' key item ;; Ok ((k, v) :: d'')
  end.

Definition version_info (v : CursorVersion) : pyobj :=
  PDict [ (lit "version", PStr (version v));
          (lit "build_id", PStr (build_id v));
          (lit "downloads", obj_of_links (get_download_links v)) ].

Fixpoint json_loop (versions : list CursorVersion) (result_ : dict pyobj)
  : result (dict pyobj) :=
  match versions with
  | [] => Ok result_
  | v :: rest =>
      result_ <- getitem_append result_ (lit "versions") (version_info v) ;;
      json_loop rest result_
  end.

(** The object written to [cursor_downloads.json]. *)
Definition main_json (versions : list CursorVersion) : result pyobj :=
  let result_ := [ (lit "versions", PList []) ] in
  result_ <- json_loop versions result_ ;;
  Ok (PDict result_).

(** A [csv.writer] is modelled by the rows it has written so far. *)
Definition row := list str.

Definition writerow (written : list row) (r : row) : list row :=
  written ++ [r].

Definition csv_header : row :=
  [ lit "Version"; lit "Platform"; lit "Architecture"; lit "Download URL" ].

Definition csv_archs (v : CursorVersion) (platform : str) (archs : dict str)
  (written : list row) : list row :=
  fold_left (fun w (au : str * str) =>
               writerow w [version v; platform; fst au; snd au])
            (items archs) written.

Definition csv_platforms (v : CursorVersion) (written : list row) : list row :=
  let links := get_download_links v in
  fold_left (fun w (pa : str * dict str) => csv_archs v (fst pa) (snd pa) w)
            (items links) written.

(** The rows written to [cursor_downloads.csv]. *)
Definition main_csv (versions : list CursorVersion) : list row :=
  let written := writerow [] csv_header in
  fold_left (fun w v => csv_platforms v w) versions written.

(** The text of one row in the writer's default dialect: fields separated
    by commas, a field quoted when it holds a comma, a quote or a line
    break (or is the only field and empty), quotes inside it doubled, and
    the row ended by a carriage return and a line feed. *)
Definition cr : char := 13%N.

Definition csv_special (c : char) : bool :=
  N.eqb c comma || N.eqb c dquote || N.eqb c cr || N.eqb c nl.

Definition csv_field (alone : bool) (f : str) : str :=
  if existsb csv_special f || (alone && is_empty f) then
    [dquote]
      ++ flat_map (fun c => if N.eqb c dquote then [dquote; dquote] else [c]) f
      ++ [dquote]
  else f.

Definition csv_record (r : row) : str :=
  let alone := match r with [_] => true | _ => false end in
  join [comma] (map (csv_field alone) r) ++ [cr; nl].

Record outputs : Type := mkOutputs {
  out_markdown : str;
  out_json : pyobj;
  out_csv : list row
}.

Definition main_data : str :=
  lit "
0.45.11,250207y6nbaw5qc
0.45.10,250205buadkzpea
# ... 更多版本数据 ...
".


(** [main] after the parse: the three files it writes. *)
Definition main_outputs (versions : list CursorVersion) : result outputs :=
  markdown_content <- generate_markdown versions ;;
  result_ <- main_json versions ;;
  Ok (mkOutputs markdown_content result_ (main_csv versions)).

Definition main : result outputs :=
  versions <- parse_versions main_data ;;
  main_outputs versions.

(* ================================================================= *)
(** ** The specification's tables *)

(** The suffix table of the specification (section 4.2): platform,
    architecture and path suffix, in the table's order. *)
Definition suffix_table : list (str * str * str) :=
  [ (lit "windows", lit "x64", lit "/windows/nsis/x64");
    (lit "windows", lit "arm64", lit "/windows/nsis/arm64");
    (lit "mac", lit "universal", lit "/mac/installer/universal");
    (lit "mac", lit "arm64", lit "/mac/installer/arm64");
    (lit "mac", lit "x64", lit "/mac/installer/x64");
    (lit "linux", lit "x64", lit "/linux/appImage/x64") ].

(** The URL the specification gives for a build and a suffix. *)
Definition spec_url (b suffix : str) : str :=
  lit "https://downloader.cursor.sh/builds/" ++ b ++ suffix.

(** The entries of a two-level mapping, as (platform, architecture, URL)
    triples in iteration order. *)
Definition entries (links : dict (dict str)) : list (str * str * str) :=
  flat_map (fun pa : str * dict str =>
              map (fun au : str * str => (fst pa, fst au, snd au)) (snd pa))
           links.

(** The entries the specification requires for the build [b]. *)
Definition spec_entries (b : str) : list (str * str * str) :=
  map (fun e : str * str * str =>
         (fst (fst e), snd (fst e), spec_url b (snd e)))
      suffix_table.

(* ================================================================= *)
(** ** Definitions the statements use *)

(** [links[platform][arch]]. *)
Definition subscript2 (links : dict (dict str)) (platform arch : str)
  : result str :=
  archs <- getitem links platform ;; getitem archs arch.

(** The row of one record in the section of one suffix. *)
Definition md_row (suffix : str) (v : CursorVersion) : str :=
  lit "| " ++ version v ++ lit " | [下载](" ++ spec_url (build_id v) suffix
    ++ lit ") |" ++ [nl].

(** The static text that opens each of the six sections, in order. *)
Definition md_intros : list str :=
  [ md_windows_x64; md_windows_arm64; md_mac_universal; md_mac_arm64;
    md_mac_x64; md_linux_x64 ].

Definition md_section (versions : list CursorVersion)
  (s : str * (str * str * str)) : str :=
  fst s ++ concat (map (md_row (snd (snd s))) versions).

Ltac in_table := unfold suffix_table; cbn [In]; tauto.

(** The six rows of one record, in the order of the suffix table. *)
Definition csv_rows_of (v : CursorVersion) : list row :=
  map (fun e : str * str * str =>
         [ version v; fst (fst e); snd (fst e);
           spec_url (build_id v) (snd e) ])
      suffix_table.

(** A string of whitespace only (the empty string included). *)
Definition blank (s : str) : bool := forallb isspace s.

(** The lines of [lstrip] of a text, from the lines of the text: leading
    lines of whitespace are dropped and the first other line loses its
    leading whitespace. *)
Fixpoint lstrip_lines (ls : list str) : list str :=
  match ls with
  | [] => []
  | l :: rest =>
      if blank l then
        match rest with
        | [] => [[]]
        | _ :: _ => lstrip_lines rest
        end
      else lstrip l :: rest
  end.

Definition nonempty (l : str) : bool := negb (is_empty l).

(** What the loop body sees of the lines: the stripped text of each line
    that is not the empty string. *)
Definition stripped_lines (ls : list str) : list str :=
  map strip (filter nonempty ls).

Fixpoint drop_empty (xs : list str) : list str :=
  match xs with
  | [] => []
  | x :: r => if is_empty x then drop_empty r else xs
  end.

Definition trim (xs : list str) : list str :=
  rev (drop_empty (rev (drop_empty xs))).

(** The loop on stripped lines. *)
Fixpoint parse_stripped (sls : list str) (versions : list CursorVersion)
  : result (list CursorVersion) :=
  match sls with
  | [] => Ok versions
  | s :: rest =>
      '(v, b) <- unpack2 (split comma s) ;;
      parse_stripped rest (versions ++ [mkCursorVersion v b])
  end.

(** The record of a stripped line with exactly one comma. *)
Definition record_of (s : str) : CursorVersion :=
  match split comma s with
  | [v; b] => mkCursorVersion v b
  | _ => mkCursorVersion [] []
  end.

(** A line that is not blank: it holds a character that is not
    whitespace. *)
Definition nonblank (l : str) : bool := negb (blank l).

(** The lines without the blank lines at the start. *)
Fixpoint drop_blank (ls : list str) : list str :=
  match ls with
  | [] => []
  | l :: rest => if blank l then drop_blank rest else ls
  end.

(** The lines from the first to the last line that is not blank. *)
Definition drop_blank_ends (ls : list str) : list str :=
  rev (drop_blank (rev (drop_blank ls))).

(** The lines of a text that count: those from the first to the last line
    that is not blank, without the lines that are the empty string. *)
Definition core_lines (data : str) : list str :=
  filter nonempty (drop_blank_ends (split nl data)).

(** A text is well formed when each of its lines that is not blank splits,
    once stripped, at commas into exactly two fields. *)
Definition well_formed (data : str) : Prop :=
  Forall (fun l => blank l = true \/ length (split comma (strip l)) = 2)
         (split nl data).

(** No line of whitespace stands between two lines that are not blank,
    but for lines that are the empty string. *)
Definition no_inner_whitespace_line (data : str) : Prop :=
  Forall (fun l => l = [] \/ blank l = false)
         (drop_blank_ends (split nl data)).

(** The object the specification requires under [downloads] for the build
    [b] (sections 4.2 and 6): platform, then architecture, then the URL of
    the suffix table, in the table's order. *)
Definition spec_downloads (b : str) : pyobj :=
  PDict
    [ (lit "windows",
        PDict [ (lit "x64", PStr (spec_url b (lit "/windows/nsis/x64")));
                (lit "arm64", PStr (spec_url b (lit "/windows/nsis/arm64"))) ]);
      (lit "mac",
        PDict [ (lit "universal",
                  PStr (spec_url b (lit "/mac/installer/universal")));
                (lit "arm64", PStr (spec_url b (lit "/mac/installer/arm64")));
                (lit "x64", PStr (spec_url b (lit "/mac/installer/x64"))) ]);
      (lit "linux",
        PDict [ (lit "x64", PStr (spec_url b (lit "/linux/appImage/x64"))) ]) ].

(** The object of one record the specification requires. *)
Definition spec_version_info (v : CursorVersion) : pyobj :=
  PDict [ (lit "version", PStr (version v));
          (lit "build_id", PStr (build_id v));
          (lit "downloads", spec_downloads (build_id v)) ].

(** Modelled from the spec: the serializer of the round-trip property,
    which the repository does not have.  It writes one [version,build_id]
    line per record, each ended by a line feed, as in the example input of
    the specification. *)
Definition serialize_record (r : CursorVersion) : str :=
  version r ++ comma :: build_id r.

Definition serialize (rs : list CursorVersion) : str :=
  concat (map (fun r => serialize_record r ++ [nl]) rs).

(** The records that survive the round trip: no comma and no line feed
    in either field, no whitespace at the start of the version and none at
    the end of the build id. *)
Definition plain (r : CursorVersion) : Prop :=
  ~ In comma (version r) /\ ~ In nl (version r)
  /\ ~ In comma (build_id r) /\ ~ In nl (build_id r)
  /\ lstrip (version r) = version r
  /\ rstrip (build_id r) = build_id r.

(** The text written to [cursor_downloads.csv]: the texts of the rows, one
    after the other (the file is opened with [newline=''], so the line
    ends are written as they are). *)
Definition csv_text (rows : list row) : str := concat (map csv_record rows).

(** A field every version of the writer leaves as it is: no comma, no
    quote, no carriage return and no line feed in it, and no NUL either
    (which the writers before Python 3.11 refuse). *)
Definition csv_plain (f : str) : bool :=
  forallb (fun c => negb (csv_special c || N.eqb c 0)) f.

(** Evaluates the reversed literals of an equation. *)
Ltac rev_literals H :=
  repeat match type of H with
         | context [rev (lit ?s)] =>
             let x := eval vm_compute in (rev (lit s)) in
             let E := fresh "E" in
             assert (E : rev (lit s) = x) by (vm_compute; reflexivity);
             rewrite E in H; clear E
         end.

(** The lines of a text whose lines are ended by a carriage return and a
    line feed, as the split at line feeds gives them: each line but the
    last keeps its carriage return. *)
Fixpoint crlf_lines (ls : list str) : list str :=
  match ls with
  | [] => []
  | [l] => [l]
  | l :: rest => (l ++ [cr]) :: crlf_lines rest
  end.

(* ================================================================= *)
(** ** The link generator *)

Lemma entries_get_download_links (v : CursorVersion) :
  entries (get_download_links v) = spec_entries (build_id v).
Proof.
  unfold entries, get_download_links, spec_entries, suffix_table, spec_url.
  cbn [flat_map map fst snd app].
  repeat rewrite <- app_assoc.
  reflexivity.
Qed.

Lemma spec_keys_NoDup :
  NoDup (map (fun e : str * str * str => fst e) suffix_table).
Proof.
  repeat constructor; cbn [In map fst];
    intro H; repeat destruct H as [H | H]; try discriminate H; exact H.
Qed.

(** C1. For every record, whatever its strings hold, the link mapping has
    exactly the six (platform, architecture) entries of the suffix table,
    in the table's order and with pairwise different keys, and every URL is
    the fixed prefix, the build id and the entry's suffix; the generator is
    a total function, so it returns for every record. *)
Theorem get_download_links_fixed_shape (v : CursorVersion) :
  entries (get_download_links v) = spec_entries (build_id v)
  /\ length (entries (get_download_links v)) = 6
  /\ NoDup (map (fun e : str * str * str => fst e)
                (entries (get_download_links v)))
  /\ map (fun e : str * str * str => fst e) (entries (get_download_links v))
     = map (fun e : str * str * str => fst e) suffix_table.
Proof.
  rewrite entries_get_download_links.
  assert (K : map (fun e : str * str * str => fst e)
                  (spec_entries (build_id v))
              = map (fun e : str * str * str => fst e) suffix_table).
  { unfold spec_entries. rewrite map_map. apply map_ext.
    intros [[p a] s]. reflexivity. }
  split; [reflexivity | split; [| split]].
  - unfold spec_entries. rewrite length_map. reflexivity.
  - rewrite K. apply spec_keys_NoDup.
  - exact K.
Qed.

Lemma subscript2_get_download_links (v : CursorVersion) :
  Forall (fun e : str * str * str =>
            subscript2 (get_download_links v) (fst (fst e)) (snd (fst e))
            = Ok (spec_url (build_id v) (snd e)))
         suffix_table.
Proof.
  unfold suffix_table, spec_url.
  repeat constructor; cbn [fst snd]; unfold subscript2, get_download_links;
    rewrite app_assoc; reflexivity.
Qed.

(* ================================================================= *)
(** ** The document renderer *)

Lemma md_rows_ok (platform arch suffix : str) :
  (forall v, subscript2 (get_download_links v) platform arch
             = Ok (spec_url (build_id v) suffix)) ->
  forall versions md,
    md_rows versions platform arch md
    = Ok (md ++ concat (map (md_row suffix) versions)).
Proof.
  intros Hsub versions.
  induction versions as [| v rest IH]; intros md.
  - cbn [md_rows map concat]. rewrite app_nil_r. reflexivity.
  - cbn [md_rows map concat].
    specialize (Hsub v). unfold subscript2 in Hsub.
    destruct (getitem (get_download_links v) platform) as [archs | e];
      cbn [bind] in Hsub |- *; [| discriminate Hsub].
    rewrite Hsub. cbn [bind].
    rewrite IH. unfold md_row.
    repeat rewrite <- app_assoc. reflexivity.
Qed.

Lemma suffix_table_lookups (v : CursorVersion) (e : str * str * str) :
  In e suffix_table ->
  subscript2 (get_download_links v) (fst (fst e)) (snd (fst e))
  = Ok (spec_url (build_id v) (snd e)).
Proof.
  apply (proj1 (Forall_forall _ _) (subscript2_get_download_links v)).
Qed.

(** C8. For every list of records the document is one text: the six
    sections in the order of the suffix table (windows x64, windows arm64,
    mac universal, mac arm64, mac x64, linux x64), each the section's
    static opening text followed by one row per record in input order that
    pairs the record's version with the link to its URL for that section,
    and after them the static styling block; the static pieces are closed
    texts that do not mention the records, and the renderer never fails. *)
Theorem generate_markdown_sections (versions : list CursorVersion) :
  generate_markdown versions
  = Ok (concat (map (md_section versions) (combine md_intros suffix_table))
        ++ md_style).
Proof.
  unfold generate_markdown.
  rewrite (@md_rows_ok _ _ (lit "/windows/nsis/x64")
             (fun v => @suffix_table_lookups v
                (lit "windows", lit "x64", lit "/windows/nsis/x64")
                ltac:(in_table))).
  cbn [bind].
  rewrite (@md_rows_ok _ _ (lit "/windows/nsis/arm64")
             (fun v => @suffix_table_lookups v
                (lit "windows", lit "arm64", lit "/windows/nsis/arm64")
                ltac:(in_table))).
  cbn [bind].
  rewrite (@md_rows_ok _ _ (lit "/mac/installer/universal")
             (fun v => @suffix_table_lookups v
                (lit "mac", lit "universal", lit "/mac/installer/universal")
                ltac:(in_table))).
  cbn [bind].
  rewrite (@md_rows_ok _ _ (lit "/mac/installer/arm64")
             (fun v => @suffix_table_lookups v
                (lit "mac", lit "arm64", lit "/mac/installer/arm64")
                ltac:(in_table))).
  cbn [bind].
  rewrite (@md_rows_ok _ _ (lit "/mac/installer/x64")
             (fun v => @suffix_table_lookups v
                (lit "mac", lit "x64", lit "/mac/installer/x64")
                ltac:(in_table))).
  cbn [bind].
  rewrite (@md_rows_ok _ _ (lit "/linux/appImage/x64")
             (fun v => @suffix_table_lookups v
                (lit "linux", lit "x64", lit "/linux/appImage/x64")
                ltac:(in_table))).
  cbn [bind].
  unfold md_intros, suffix_table, md_section.
  cbn [combine map concat fst snd].
  rewrite app_nil_r.
  repeat rewrite <- app_assoc. reflexivity.
Qed.

(* ================================================================= *)
(** ** The structured renderer *)

Lemma json_loop_ok (versions : list CursorVersion) :
  forall acc,
    json_loop versions [ (lit "versions", PList acc) ]
    = Ok [ (lit "versions", PList (acc ++ map version_info versions)) ].
Proof.
  induction versions as [| v rest IH]; intros acc.
  - cbn [json_loop map]. rewrite app_nil_r. reflexivity.
  - cbn [json_loop map].
    change (getitem_append [(lit "versions", PList acc)] (lit "versions")
              (version_info v))
      with (Ok [(lit "versions", PList (acc ++ [version_info v]))]).
    cbn [bind]. rewrite IH. rewrite <- app_assoc. reflexivity.
Qed.

Lemma obj_of_links_get_download_links (v : CursorVersion) :
  obj_of_links (get_download_links v) = spec_downloads (build_id v).
Proof.
  unfold obj_of_links, get_download_links, spec_downloads, spec_url.
  cbn [map fst snd].
  repeat rewrite <- app_assoc.
  reflexivity.
Qed.

Lemma version_info_spec (v : CursorVersion) :
  version_info v = spec_version_info v.
Proof.
  unfold version_info, spec_version_info.
  rewrite obj_of_links_get_download_links. reflexivity.
Qed.

(** C7. For every list of N records the object written as JSON is one
    dictionary with the single key [versions]; the list under it has
    length N, and its i-th element is the dictionary of the i-th record:
    exactly the keys [version], [build_id] and [downloads], holding the
    record's version, its build id and the nested mapping of that build:
    under each platform each of its architectures, and under it the URL
    that [get_download_links] gives for the pair (the fixed prefix, the
    build id and the suffix of the table). *)
Theorem main_json_versions (versions : list CursorVersion) :
  exists arr,
    main_json versions = Ok (PDict [ (lit "versions", PList arr) ])
    /\ length arr = length versions
    /\ arr = map spec_version_info versions
    /\ forall i v, nth_error versions i = Some v ->
         nth_error arr i
         = Some (PDict
                   [ (lit "version", PStr (version v));
                     (lit "build_id", PStr (build_id v));
                     (lit "downloads",
                       PDict
                         [ (lit "windows",
                             PDict
                               [ (lit "x64",
                                   PStr (spec_url (build_id v)
                                           (lit "/windows/nsis/x64")));
                                 (lit "arm64",
                                   PStr (spec_url (build_id v)
                                           (lit "/windows/nsis/arm64"))) ]);
                           (lit "mac",
                             PDict
                               [ (lit "universal",
                                   PStr (spec_url (build_id v)
                                           (lit "/mac/installer/universal")));
                                 (lit "arm64",
                                   PStr (spec_url (build_id v)
                                           (lit "/mac/installer/arm64")));
                                 (lit "x64",
                                   PStr (spec_url (build_id v)
                                           (lit "/mac/installer/x64"))) ]);
                           (lit "linux",
                             PDict
                               [ (lit "x64",
                                   PStr (spec_url (build_id v)
                                           (lit "/linux/appImage/x64"))) ])
                         ]) ]).
Proof.
  exists (map spec_version_info versions).
  split; [| split; [| split]].
  - unfold main_json. rewrite json_loop_ok. cbn [app bind].
    rewrite (map_ext _ _ version_info_spec). reflexivity.
  - apply length_map.
  - reflexivity.
  - intros i v Hi. rewrite nth_error_map, Hi. reflexivity.
Qed.

(* ================================================================= *)
(** ** The tabular renderer *)

Lemma csv_platforms_rows (v : CursorVersion) (written : list row) :
  csv_platforms v written = written ++ csv_rows_of v.
Proof.
  unfold csv_platforms, csv_archs, items, get_download_links, writerow,
    csv_rows_of, suffix_table, spec_url.
  cbn [fold_left fst snd map].
  repeat rewrite <- app_assoc.
  cbn [app].
  repeat rewrite <- app_assoc.
  reflexivity.
Qed.

Lemma csv_loop_rows (versions : list CursorVersion) :
  forall written,
    fold_left (fun w v => csv_platforms v w) versions written
    = written ++ flat_map csv_rows_of versions.
Proof.
  induction versions as [| v rest IH]; intros written.
  - cbn [fold_left flat_map]. rewrite app_nil_r. reflexivity.
  - cbn [fold_left flat_map].
    rewrite IH, csv_platforms_rows, <- app_assoc. reflexivity.
Qed.

Lemma length_flat_map_csv (versions : list CursorVersion) :
  length (flat_map csv_rows_of versions) = 6 * length versions.
Proof.
  induction versions as [| v rest IH].
  - reflexivity.
  - cbn [flat_map]. rewrite length_app, IH.
    unfold csv_rows_of. rewrite length_map.
    change (length suffix_table) with 6. cbn [length]. lia.
Qed.

(** C6. For every list of N records the table has exactly 1 + 6 * N rows:
    first the header row, whose text is
    [Version,Platform,Architecture,Download URL], then for each record in
    input order its six rows (version, platform, architecture, URL) in the
    order of the suffix table: windows x64, windows arm64, mac universal,
    mac arm64, mac x64, linux x64. *)
Theorem main_csv_rows (versions : list CursorVersion) :
  main_csv versions = csv_header :: flat_map csv_rows_of versions
  /\ length (main_csv versions) = 1 + 6 * length versions
  /\ csv_record csv_header
     = lit "Version,Platform,Architecture,Download URL" ++ [cr; nl].
Proof.
  assert (E : main_csv versions = csv_header :: flat_map csv_rows_of versions).
  { unfold main_csv, writerow. rewrite csv_loop_rows. reflexivity. }
  split; [exact E | split].
  - rewrite E. cbn [length]. rewrite length_flat_map_csv. reflexivity.
  - vm_compute. reflexivity.
Qed.

(* ================================================================= *)
(** ** Facts on [strip] and [split] *)

Lemma isspace_nl : isspace nl = true.
Proof. reflexivity. Qed.

Lemma isspace_comma : isspace comma = false.
Proof. reflexivity. Qed.

Lemma lstrip_blank (s : str) : blank s = true -> lstrip s = [].
Proof.
  induction s as [| c s IH]; cbn [blank forallb lstrip]; [reflexivity |].
  intros H. apply andb_true_iff in H. destruct H as [Hc Hs].
  rewrite Hc. apply IH, Hs.
Qed.

Lemma lstrip_nil_blank (s : str) : lstrip s = [] -> blank s = true.
Proof.
  induction s as [| c s IH]; cbn [blank forallb lstrip]; [reflexivity |].
  destruct (isspace c) eqn:Hc; [| discriminate].
  intros H. apply IH in H. exact H.
Qed.

Lemma lstrip_not_blank (s : str) : blank s = false -> lstrip s <> [].
Proof.
  intros H E. apply lstrip_nil_blank in E. congruence.
Qed.

Lemma lstrip_app_blank (w s : str) : blank w = true -> lstrip (w ++ s) = lstrip s.
Proof.
  induction w as [| c w IH]; cbn [blank forallb lstrip app]; [reflexivity |].
  intros H. apply andb_true_iff in H. destruct H as [Hc Hw].
  rewrite Hc. apply IH, Hw.
Qed.

Lemma lstrip_app_not_blank (a s : str) :
  blank a = false -> lstrip (a ++ s) = lstrip a ++ s.
Proof.
  induction a as [| c a IH]; cbn [blank forallb lstrip app]; [discriminate |].
  destruct (isspace c); cbn [andb]; [exact IH | reflexivity].
Qed.

Lemma lstrip_head (s r : str) (c : char) :
  lstrip s = c :: r -> isspace c = false.
Proof.
  induction s as [| d s IH]; cbn [lstrip]; [discriminate |].
  destruct (isspace d) eqn:Hd; [exact IH |].
  intros E. injection E as -> _. exact Hd.
Qed.

Lemma lstrip_fixed (s : str) :
  match s with [] => True | c :: _ => isspace c = false end -> lstrip s = s.
Proof.
  destruct s as [| c s]; cbn [lstrip]; [reflexivity |].
  intros ->. reflexivity.
Qed.

Lemma lstrip_idem (s : str) : lstrip (lstrip s) = lstrip s.
Proof.
  apply lstrip_fixed. destruct (lstrip s) as [| c r] eqn:E; [exact I |].
  exact (lstrip_head _ E).
Qed.

Lemma lstrip_snoc (s : str) (c : char) :
  lstrip (s ++ [c])
  = match lstrip s with
    | [] => if isspace c then [] else [c]
    | r => r ++ [c]
    end.
Proof.
  induction s as [| d s IH]; cbn [lstrip app].
  - destruct (isspace c); reflexivity.
  - destruct (isspace d); [exact IH | reflexivity].
Qed.

(** [rstrip] by recursion on the string. *)
Lemma rstrip_cons (c : char) (s : str) :
  rstrip (c :: s)
  = match rstrip s with
    | [] => if isspace c then [] else [c]
    | r => c :: r
    end.
Proof.
  unfold rstrip. cbn [rev]. rewrite lstrip_snoc.
  destruct (lstrip (rev s)) as [| d r].
  - cbn [rev]. destruct (isspace c); reflexivity.
  - rewrite rev_app_distr. cbn [rev app].
    destruct (rev r ++ [d]) eqn:E; [| reflexivity].
    destruct (rev r); discriminate E.
Qed.

Lemma rstrip_nil : rstrip [] = [].
Proof. reflexivity. Qed.

Lemma blank_rev (s : str) : blank (rev s) = blank s.
Proof.
  unfold blank. induction s as [| c s IH]; [reflexivity |].
  cbn [rev forallb]. rewrite forallb_app, IH. cbn [forallb].
  rewrite andb_true_r. apply andb_comm.
Qed.

Lemma rstrip_blank (s : str) : blank s = true -> rstrip s = [].
Proof.
  intros H. unfold rstrip. rewrite lstrip_blank; [reflexivity |].
  rewrite blank_rev. exact H.
Qed.

Lemma rstrip_nil_blank (s : str) : rstrip s = [] -> blank s = true.
Proof.
  unfold rstrip. intros H.
  rewrite <- blank_rev. apply lstrip_nil_blank.
  destruct (lstrip (rev s)) as [| d r]; [reflexivity |].
  cbn [rev] in H. destruct (rev r); discriminate H.
Qed.

(** The two scans of [strip] commute. *)
Lemma strip_comm (s : str) : rstrip (lstrip s) = lstrip (rstrip s).
Proof.
  induction s as [| c s IH]; [reflexivity |].
  rewrite rstrip_cons. cbn [lstrip].
  destruct (isspace c) eqn:Hc.
  - rewrite IH. destruct (rstrip s) as [| d r]; [reflexivity |].
    cbn [lstrip]. rewrite Hc. reflexivity.
  - rewrite rstrip_cons.
    destruct (rstrip s) as [| d r]; cbn [lstrip]; rewrite ?Hc; reflexivity.
Qed.

Lemma rstrip_idem (s : str) : rstrip (rstrip s) = rstrip s.
Proof.
  unfold rstrip. rewrite rev_involutive, lstrip_idem. reflexivity.
Qed.

Lemma strip_lstrip (s : str) : strip (lstrip s) = strip s.
Proof. unfold strip. rewrite lstrip_idem. reflexivity. Qed.

Lemma strip_rstrip (s : str) : strip (rstrip s) = strip s.
Proof.
  unfold strip. rewrite <- strip_comm, rstrip_idem. reflexivity.
Qed.

Lemma strip_rev (s : str) : strip (rev s) = rev (strip s).
Proof.
  unfold strip. rewrite (strip_comm s). reflexivity.
Qed.

Lemma strip_blank (s : str) : blank s = true -> strip s = [].
Proof.
  intros H. unfold strip. rewrite lstrip_blank by exact H. reflexivity.
Qed.

Lemma strip_nil_blank (s : str) : strip s = [] -> blank s = true.
Proof.
  unfold strip. intros H. apply rstrip_nil_blank in H.
  destruct (blank s) eqn:B; [reflexivity |].
  apply lstrip_not_blank in B.
  destruct (lstrip s) as [| c r] eqn:E; [congruence |].
  apply lstrip_head in E. cbn [blank forallb] in H.
  rewrite E in H. discriminate H.
Qed.

Lemma strip_app_blank_l (w s : str) : blank w = true -> strip (w ++ s) = strip s.
Proof.
  intros H. unfold strip. rewrite lstrip_app_blank by exact H. reflexivity.
Qed.

Lemma strip_app_blank_r (s w : str) : blank w = true -> strip (s ++ w) = strip s.
Proof.
  intros H. rewrite <- (rev_involutive (s ++ w)), strip_rev, rev_app_distr.
  rewrite strip_app_blank_l by (rewrite blank_rev; exact H).
  rewrite strip_rev, rev_involutive. reflexivity.
Qed.

Lemma split_not_nil (sep : char) (s : str) : split sep s <> [].
Proof.
  induction s as [| c s IH]; cbn [split]; [discriminate |].
  destruct (N.eqb c sep); [discriminate |].
  destruct (split sep s); [congruence | discriminate].
Qed.

Lemma split_cons_sep (sep : char) (s : str) :
  split sep (sep :: s) = [] :: split sep s.
Proof. cbn [split]. rewrite N.eqb_refl. reflexivity. Qed.

Lemma split_cons_other (sep c : char) (s h : str) (t : list str) :
  c <> sep -> split sep s = h :: t -> split sep (c :: s) = (c :: h) :: t.
Proof.
  intros Hc E. cbn [split].
  destruct (N.eqb_spec c sep) as [-> | _]; [congruence |].
  rewrite E. reflexivity.
Qed.

Lemma split_app_sep (sep : char) (a b : str) :
  split sep (a ++ sep :: b)
  = removelast (split sep a) ++ [last (split sep a) []] ++ split sep b.
Proof.
  induction a as [| c a IH].
  - cbn [app]. rewrite split_cons_sep. reflexivity.
  - cbn [app split]. destruct (N.eqb c sep).
    + rewrite IH. pose proof (split_not_nil sep a) as Hn.
      destruct (split sep a) as [| h t]; [congruence |]. reflexivity.
    + rewrite IH. pose proof (split_not_nil sep a) as Hn.
      destruct (split sep a) as [| h t]; [congruence |].
      destruct t as [| h' t']; reflexivity.
Qed.

Lemma split_snoc (sep c : char) (s : str) :
  split sep (s ++ [c])
  = if N.eqb c sep then split sep s ++ [[]]
    else removelast (split sep s) ++ [last (split sep s) [] ++ [c]].
Proof.
  induction s as [| d s IH].
  - cbn [app split]. destruct (N.eqb c sep); reflexivity.
  - cbn [app split]. pose proof (split_not_nil sep s) as Hn.
    destruct (N.eqb d sep).
    + rewrite IH. destruct (N.eqb c sep); [reflexivity |].
      destruct (split sep s) as [| h t]; [congruence |]. reflexivity.
    + rewrite IH. destruct (N.eqb c sep).
      * destruct (split sep s) as [| h t]; [congruence |]. reflexivity.
      * destruct (split sep s) as [| h t]; [congruence |].
        destruct t as [| h' t']; reflexivity.
Qed.

Lemma split_rev (sep : char) (s : str) :
  split sep (rev s) = rev (map (@rev char) (split sep s)).
Proof.
  induction s as [| c s IH]; [reflexivity |].
  cbn [rev]. rewrite split_snoc, IH. cbn [split].
  pose proof (split_not_nil sep s) as Hn.
  destruct (N.eqb c sep).
  - reflexivity.
  - destruct (split sep s) as [| h t]; [congruence |].
    cbn [map rev]. rewrite removelast_last, last_last.
    reflexivity.
Qed.

(* ================================================================= *)
(** ** The lines [parse_versions] iterates over *)

Lemma parse_lines_stripped (ls : list str) :
  forall acc, parse_lines ls acc = parse_stripped (stripped_lines ls) acc.
Proof.
  unfold stripped_lines.
  induction ls as [| l ls IH]; intros acc; [reflexivity |].
  cbn [parse_lines filter]. unfold nonempty at 1.
  destruct (is_empty l); cbn [negb map parse_stripped].
  - apply IH.
  - destruct (unpack2 (split comma (strip l))) as [[v b] | e]; cbn [bind].
    + apply IH.
    + reflexivity.
Qed.

Lemma split_lstrip (d : str) :
  split nl (lstrip d) = lstrip_lines (split nl d).
Proof.
  induction d as [| c d IH]; [reflexivity |].
  pose proof (split_not_nil nl d) as Hn.
  cbn [lstrip split].
  destruct (N.eqb_spec c nl) as [-> | Hc].
  - rewrite isspace_nl. cbn [lstrip_lines blank forallb].
    rewrite IH. destruct (split nl d); [congruence | reflexivity].
  - destruct (split nl d) as [| h t] eqn:E; [congruence |].
    destruct (isspace c) eqn:Hs.
    + rewrite IH. cbn [lstrip_lines blank forallb lstrip]. rewrite Hs.
      reflexivity.
    + cbn [split lstrip_lines blank forallb lstrip]. rewrite Hs.
      destruct (N.eqb_spec c nl) as [-> | _]; [congruence |].
      rewrite E. reflexivity.
Qed.

Lemma is_empty_strip_blank (l : str) : is_empty (strip l) = blank l.
Proof.
  destruct (blank l) eqn:B.
  - rewrite strip_blank by exact B. reflexivity.
  - destruct (strip l) eqn:E; [| reflexivity].
    apply strip_nil_blank in E. congruence.
Qed.

Lemma stripped_lstrip_lines (ls : list str) :
  stripped_lines (lstrip_lines ls) = drop_empty (stripped_lines ls).
Proof.
  unfold stripped_lines.
  induction ls as [| l rest IH]; [reflexivity |].
  cbn [lstrip_lines]. destruct (blank l) eqn:B.
  - assert (D : drop_empty (map strip (filter nonempty (l :: rest)))
                = drop_empty (map strip (filter nonempty rest))).
    { cbn [filter]. destruct (nonempty l); [| reflexivity].
      cbn [map drop_empty]. rewrite is_empty_strip_blank, B. reflexivity. }
    rewrite D. destruct rest as [| l' rest']; [reflexivity | exact IH].
  - assert (Hl : nonempty (lstrip l) = true).
    { unfold nonempty. destruct (lstrip l) eqn:E; [| reflexivity].
      apply lstrip_nil_blank in E. congruence. }
    assert (Hl' : nonempty l = true).
    { destruct l; [discriminate B | reflexivity]. }
    cbn [filter]. rewrite Hl, Hl'. cbn [map drop_empty].
    rewrite strip_lstrip, is_empty_strip_blank, B. reflexivity.
Qed.

Lemma nonempty_rev (l : str) : nonempty (rev l) = nonempty l.
Proof.
  destruct l as [| c l]; [reflexivity |].
  cbn [rev]. destruct (rev l); reflexivity.
Qed.

Lemma stripped_lines_rev (ls : list str) :
  stripped_lines (rev (map (@rev char) ls))
  = rev (map (@rev char) (stripped_lines ls)).
Proof.
  unfold stripped_lines.
  induction ls as [| l ls IH]; [reflexivity |].
  cbn [map rev filter]. rewrite filter_app, map_app.
  etransitivity; [apply (f_equal2 (@app str)); [exact IH | reflexivity] |].
  cbn [filter]. rewrite nonempty_rev.
  destruct (nonempty l); cbn [map rev].
  - rewrite strip_rev. reflexivity.
  - apply app_nil_r.
Qed.

Lemma drop_empty_map_rev (xs : list str) :
  drop_empty (map (@rev char) xs) = map (@rev char) (drop_empty xs).
Proof.
  induction xs as [| x xs IH]; [reflexivity |].
  cbn [map drop_empty].
  assert (E : is_empty (rev x) = is_empty x).
  { pose proof (nonempty_rev x) as H. unfold nonempty in H.
    destruct (is_empty (rev x)), (is_empty x); (reflexivity || discriminate H). }
  rewrite E. destruct (is_empty x); [exact IH | reflexivity].
Qed.

Lemma map_rev_rev (xs : list str) :
  map (@rev char) (map (@rev char) xs) = xs.
Proof.
  rewrite map_map. rewrite <- (map_id xs) at 2.
  apply map_ext. intros a. apply rev_involutive.
Qed.

Lemma stripped_lines_split_rstrip (d : str) :
  stripped_lines (split nl (rstrip d))
  = rev (drop_empty (rev (stripped_lines (split nl d)))).
Proof.
  unfold rstrip. rewrite split_rev, split_lstrip, split_rev.
  rewrite stripped_lines_rev, stripped_lstrip_lines, stripped_lines_rev.
  rewrite <- drop_empty_map_rev, <- map_rev, map_rev_rev. reflexivity.
Qed.

(** The parser in terms of the lines of the text itself: the stripped
    non-empty lines, without the empty entries at both ends. *)
Lemma parse_versions_lines (data : str) :
  parse_versions data
  = parse_stripped (trim (stripped_lines (split nl data))) [].
Proof.
  unfold parse_versions, strip, trim.
  rewrite parse_lines_stripped, stripped_lines_split_rstrip.
  rewrite split_lstrip, stripped_lstrip_lines. reflexivity.
Qed.

(* ================================================================= *)
(** ** Facts on the loop *)

Lemma unpack2_raise (parts : list str) :
  length parts <> 2 -> unpack2 parts = Raise ValueError.
Proof.
  destruct parts as [| a [| b [| c r]]]; cbn [unpack2 length]; intros H;
    try reflexivity.
  congruence.
Qed.

Lemma parse_stripped_raise (sls : list str) (s : str) :
  In s sls -> length (split comma s) <> 2 ->
  forall acc, parse_stripped sls acc = Raise ValueError.
Proof.
  intros Hin Hlen.
  induction sls as [| x sls IH]; intros acc; [destruct Hin |].
  cbn [parse_stripped].
  destruct (unpack2 (split comma x)) as [[v b] | e] eqn:E; cbn [bind].
  - destruct Hin as [-> | Hin]; [| exact (IH Hin _)].
    rewrite unpack2_raise in E by exact Hlen. discriminate E.
  - destruct (split comma x) as [| p [| q [| r t]]];
      cbn [unpack2] in E; congruence.
Qed.

Lemma parse_stripped_ok (sls : list str) :
  Forall (fun s => length (split comma s) = 2) sls ->
  forall acc, parse_stripped sls acc = Ok (acc ++ map record_of sls).
Proof.
  induction 1 as [| s sls Hs _ IH]; intros acc.
  - cbn [parse_stripped map]. rewrite app_nil_r. reflexivity.
  - cbn [parse_stripped map]. unfold record_of at 1.
    destruct (split comma s) as [| v [| b [| c r]]]; try discriminate Hs.
    cbn [unpack2 bind]. rewrite IH, <- app_assoc. reflexivity.
Qed.

Lemma In_drop_empty (xs : list str) (x : str) :
  In x xs -> x <> [] -> In x (drop_empty xs).
Proof.
  induction xs as [| y xs IH]; intros Hin Hx; [destruct Hin |].
  cbn [drop_empty]. destruct y as [| c y]; cbn [is_empty].
  - destruct Hin as [<- | Hin]; [congruence | exact (IH Hin Hx)].
  - exact Hin.
Qed.

Lemma In_trim (xs : list str) (x : str) :
  In x xs -> x <> [] -> In x (trim xs).
Proof.
  intros Hin Hx. unfold trim.
  apply -> in_rev. apply In_drop_empty; [| exact Hx].
  apply -> in_rev. apply In_drop_empty; assumption.
Qed.

Lemma drop_empty_id (xs : list str) :
  Forall (fun x => x <> []) xs -> drop_empty xs = xs.
Proof.
  destruct 1 as [| x xs Hx _]; [reflexivity |].
  cbn [drop_empty]. destruct x; [congruence | reflexivity].
Qed.

Lemma trim_id (xs : list str) :
  Forall (fun x => x <> []) xs -> trim xs = xs.
Proof.
  intros H. unfold trim. rewrite (drop_empty_id H).
  rewrite drop_empty_id; [apply rev_involutive |].
  apply Forall_rev, H.
Qed.

Lemma In_stripped_lines (ls : list str) (l : str) :
  In l ls -> l <> [] -> In (strip l) (stripped_lines ls).
Proof.
  intros Hin Hl. unfold stripped_lines.
  apply in_map, filter_In. split; [exact Hin |].
  destruct l; [congruence | reflexivity].
Qed.

Lemma split_no_sep (sep : char) (s : str) : ~ In sep s -> split sep s = [s].
Proof.
  induction s as [| c s IH]; intros H; [reflexivity |].
  cbn [split]. destruct (N.eqb_spec c sep) as [-> | _].
  - exfalso. apply H. left. reflexivity.
  - rewrite IH; [reflexivity |]. intros Hs. apply H. right. exact Hs.
Qed.

Lemma split_one_sep (sep : char) (a b : str) :
  ~ In sep a -> split sep (a ++ sep :: b) = a :: split sep b.
Proof.
  intros H. rewrite split_app_sep, (@split_no_sep sep a H). reflexivity.
Qed.

Lemma split_single (sep : char) (s b : str) :
  split sep s = [b] -> s = b.
Proof.
  revert b. induction s as [| c s IH]; intros b; cbn [split].
  - intros E. injection E as <-. reflexivity.
  - pose proof (split_not_nil sep s) as Hn.
    destruct (N.eqb c sep).
    + intros E. injection E as _ E. congruence.
    + destruct (split sep s) as [| h t]; [congruence |].
      intros E. injection E as <- ->. f_equal. apply IH. reflexivity.
Qed.

Lemma split_two_fields (sep : char) (s v b : str) :
  split sep s = [v; b] -> s = v ++ sep :: b.
Proof.
  revert v. induction s as [| c s IH]; intros v; cbn [split]; [discriminate |].
  destruct (N.eqb_spec c sep) as [-> | _].
  - intros E. injection E as <- E.
    apply split_single in E. subst s. reflexivity.
  - destruct (split sep s) as [| h t] eqn:E; [discriminate |].
    intros E'. injection E' as <- ->.
    cbn [app]. f_equal. apply IH. reflexivity.
Qed.

Lemma nonempty_not_nil (l : str) : l <> [] -> nonempty l = true.
Proof. destruct l; [congruence | reflexivity]. Qed.

Lemma strip_not_nil (l : str) : strip l <> [] -> l <> [].
Proof. intros H E. apply H. rewrite E. reflexivity. Qed.

(** A line of the loop that is not empty and does not split in two makes
    the whole parse raise. *)
Lemma parse_versions_raise_at (data l : str) :
  In l (split nl (strip data)) -> l <> [] ->
  length (split comma (strip l)) <> 2 ->
  parse_versions data = Raise ValueError.
Proof.
  intros Hin Hl Hlen. unfold parse_versions. rewrite parse_lines_stripped.
  apply parse_stripped_raise with (s := strip l); [| exact Hlen].
  apply In_stripped_lines; assumption.
Qed.

(* ================================================================= *)
(** ** The record parser *)

(** C3. A text with a line that is not blank and whose stripped text does
    not split at commas into exactly two fields (no comma, or more than
    one) makes [parse_versions] raise the format error ([ValueError]) as
    its whole result: no list of records is returned.  The line may be
    taken among the lines the loop iterates over (not the empty string) or
    among the lines of the text itself (not whitespace only). *)
Theorem parse_versions_malformed_line (data l : str) :
  (In l (split nl (strip data)) /\ l <> [])
  \/ (In l (split nl data) /\ strip l <> []) ->
  length (split comma (strip l)) <> 2 ->
  parse_versions data = Raise ValueError.
Proof.
  intros [[Hin Hl] | [Hin Hl]] Hlen.
  - exact (parse_versions_raise_at data Hin Hl Hlen).
  - rewrite parse_versions_lines.
    apply parse_stripped_raise with (s := strip l); [| exact Hlen].
    apply In_trim; [| exact Hl].
    apply In_stripped_lines; [exact Hin | exact (strip_not_nil Hl)].
Qed.

Lemma parse_versions_malformed_line_witness :
  parse_versions (lit "0.45.11,250207y6nbaw5qc
no comma here
0.45.10,250205buadkzpea")
  = Raise ValueError.
Proof.
  apply (@parse_versions_malformed_line _ (lit "no comma here")).
  - right. split.
    + vm_compute. right. left. reflexivity.
    + vm_compute. discriminate.
  - vm_compute. discriminate.
Defined.

Lemma record_of_line (s : str) :
  length (split comma s) = 2 ->
  version (record_of s) ++ comma :: build_id (record_of s) = s.
Proof.
  intros H. unfold record_of.
  destruct (split comma s) as [| v [| b [| c r]]] eqn:E; try discriminate H.
  cbn [version build_id]. symmetry. apply split_two_fields, E.
Qed.

Lemma split_nil_length (sep : char) : length (split sep []) <> 2.
Proof. cbn [split length]. discriminate. Qed.

Lemma drop_empty_stripped (ls : list str) :
  drop_empty (stripped_lines ls) = stripped_lines (drop_blank ls).
Proof.
  unfold stripped_lines.
  induction ls as [| l ls IH]; [reflexivity |].
  cbn [drop_blank filter]. destruct l as [| c l].
  - cbn [nonempty is_empty negb blank forallb]. exact IH.
  - change (nonempty (c :: l)) with true. cbn [map drop_empty].
    rewrite is_empty_strip_blank.
    destruct (blank (c :: l)); [exact IH |].
    cbn [filter]. change (nonempty (c :: l)) with true. reflexivity.
Qed.

Lemma rev_stripped_lines (ls : list str) :
  rev (stripped_lines ls) = stripped_lines (rev ls).
Proof.
  unfold stripped_lines. rewrite <- map_rev, <- filter_rev. reflexivity.
Qed.

(** What the loop sees of a text: the stripped texts of its core lines. *)
Lemma parse_versions_core_lines (data : str) :
  parse_versions data = parse_stripped (map strip (core_lines data)) [].
Proof.
  rewrite parse_versions_lines. f_equal.
  unfold trim, core_lines, drop_blank_ends.
  rewrite drop_empty_stripped, rev_stripped_lines, drop_empty_stripped.
  rewrite rev_stripped_lines. reflexivity.
Qed.

Lemma filter_nonblank_drop_blank (ls : list str) :
  filter nonblank (drop_blank ls) = filter nonblank ls.
Proof.
  induction ls as [| l ls IH]; [reflexivity |].
  cbn [drop_blank filter]. unfold nonblank at 2.
  destruct (blank l) eqn:B; cbn [negb]; [exact IH |].
  cbn [filter]. unfold nonblank at 1. rewrite B. reflexivity.
Qed.

Lemma filter_nonblank_drop_blank_ends (ls : list str) :
  filter nonblank (drop_blank_ends ls) = filter nonblank ls.
Proof.
  unfold drop_blank_ends.
  rewrite filter_rev, filter_nonblank_drop_blank, filter_rev.
  rewrite rev_involutive. apply filter_nonblank_drop_blank.
Qed.

Lemma core_lines_nonblank (data : str) :
  no_inner_whitespace_line data ->
  core_lines data = filter nonblank (split nl data).
Proof.
  intros H. unfold core_lines.
  rewrite <- (filter_nonblank_drop_blank_ends (split nl data)).
  apply filter_ext_in. intros l Hl.
  destruct (proj1 (Forall_forall _ _) H l Hl) as [-> | B]; [reflexivity |].
  unfold nonblank. rewrite B. destruct l; [discriminate B | reflexivity].
Qed.

(** C4, as the code has it.  For every well-formed text (each line that is
    not blank splits into exactly two fields) in which no line of
    whitespace other than the empty string stands between two lines that
    are not blank, [parse_versions] returns records, as many as the text
    has lines that are not blank, and in the order of these lines: the
    i-th record, written back as [version,build_id], is the stripped text
    of the i-th such line. *)
Theorem parse_versions_well_formed (data : str) :
  well_formed data -> no_inner_whitespace_line data ->
  exists rs,
    parse_versions data = Ok rs
    /\ length rs = length (filter nonblank (split nl data))
    /\ map (fun r => version r ++ comma :: build_id r) rs
       = map strip (filter nonblank (split nl data)).
Proof.
  intros Hwf Hin. unfold well_formed in Hwf.
  rewrite parse_versions_core_lines, (core_lines_nonblank Hin).
  set (ls := filter nonblank (split nl data)).
  assert (H2 : Forall (fun s => length (split comma s) = 2) (map strip ls)).
  { apply Forall_forall. intros s Hs.
    apply in_map_iff in Hs. destruct Hs as [l [<- Hl]].
    apply filter_In in Hl. destruct Hl as [Hl Hb].
    destruct (proj1 (Forall_forall _ _) Hwf l Hl) as [B | H]; [| exact H].
    unfold nonblank in Hb. rewrite B in Hb. discriminate Hb. }
  exists (map record_of (map strip ls)).
  split; [| split].
  - rewrite (parse_stripped_ok H2). reflexivity.
  - rewrite !length_map. reflexivity.
  - rewrite map_map. rewrite <- (map_id (map strip ls)) at 2.
    apply map_ext_in. intros s Hs.
    apply record_of_line.
    exact (proj1 (Forall_forall _ _) H2 s Hs).
Qed.

Lemma parse_versions_well_formed_witness :
  exists rs,
    parse_versions (lit " 

0.45.11,250207y6nbaw5qc

  0.45.10,250205buadkzpea 
	
") = Ok rs
    /\ length rs = 2
    /\ map (fun r => version r ++ comma :: build_id r) rs
       = [ lit "0.45.11,250207y6nbaw5qc"; lit "0.45.10,250205buadkzpea" ].
Proof.
  apply (@parse_versions_well_formed (lit " 

0.45.11,250207y6nbaw5qc

  0.45.10,250205buadkzpea 
	
")).
  - unfold well_formed. vm_compute.
    repeat (constructor; [first [left; reflexivity | right; reflexivity] |]).
    constructor.
  - unfold no_inner_whitespace_line. vm_compute.
    repeat (constructor; [first [left; reflexivity | right; reflexivity] |]).
    constructor.
Defined.

(** C4 as stated fails: this text is well formed, with two lines that are
    not blank, and the line of one space between them makes the parse
    raise. *)
Lemma parse_versions_well_formed_counterexample :
  well_formed (lit "0.45.11,250207y6nbaw5qc
 
0.45.10,250205buadkzpea")
  /\ length (filter nonblank (split nl (lit "0.45.11,250207y6nbaw5qc
 
0.45.10,250205buadkzpea"))) = 2
  /\ parse_versions (lit "0.45.11,250207y6nbaw5qc
 
0.45.10,250205buadkzpea") = Raise ValueError.
Proof.
  split; [| split; vm_compute; reflexivity].
  unfold well_formed. vm_compute.
  repeat (constructor; [first [left; reflexivity | right; reflexivity] |]).
  constructor.
Qed.

(** C9, as the code has it.  The lines that are the empty string,
    wherever they stand, and the lines of whitespace before the first and
    after the last line that is not blank are ignored: two texts with the
    same other lines in the same order have the same parse, be it the
    records or the error, so that adding or removing such lines changes
    nothing. *)
Theorem parse_versions_blank_lines (data data' : str) :
  core_lines data = core_lines data' ->
  parse_versions data = parse_versions data'.
Proof.
  intros H. rewrite !parse_versions_core_lines, H. reflexivity.
Qed.

Lemma parse_versions_blank_lines_witness :
  parse_versions (lit "  

0.45.11,250207y6nbaw5qc


0.45.10,250205buadkzpea

	
")
  = parse_versions (lit "0.45.11,250207y6nbaw5qc
0.45.10,250205buadkzpea").
Proof.
  apply parse_versions_blank_lines. vm_compute. reflexivity.
Defined.

(** C9 as stated fails: a line of one space added between two lines
    leaves the lines that are not blank as they were, and turns the two
    records into an error. *)
Lemma parse_versions_blank_lines_counterexample :
  filter nonblank (split nl (lit "0.45.11,250207y6nbaw5qc
 
0.45.10,250205buadkzpea"))
  = filter nonblank (split nl (lit "0.45.11,250207y6nbaw5qc
0.45.10,250205buadkzpea"))
  /\ parse_versions (lit "0.45.11,250207y6nbaw5qc
 
0.45.10,250205buadkzpea") = Raise ValueError
  /\ parse_versions (lit "0.45.11,250207y6nbaw5qc
0.45.10,250205buadkzpea")
     = Ok [ mkCursorVersion (lit "0.45.11") (lit "250207y6nbaw5qc");
            mkCursorVersion (lit "0.45.10") (lit "250205buadkzpea") ].
Proof.
  split; [| split]; vm_compute; reflexivity.
Qed.

Lemma rstrip_app_not_blank (x b : str) :
  blank b = false -> rstrip (x ++ b) = x ++ rstrip b.
Proof.
  intros H. unfold rstrip. rewrite rev_app_distr.
  rewrite lstrip_app_not_blank by (rewrite blank_rev; exact H).
  rewrite rev_app_distr, rev_involutive. reflexivity.
Qed.

Lemma In_split_between (sep : char) (x w y : str) :
  ~ In sep w -> In w (split sep (x ++ sep :: w ++ sep :: y)).
Proof.
  intros Hw. rewrite split_app_sep, (@split_one_sep sep w y Hw).
  apply in_or_app. right. apply in_or_app. right. left. reflexivity.
Qed.

Lemma blank_app (a b : str) : blank (a ++ b) = blank a && blank b.
Proof. unfold blank. apply forallb_app. Qed.

(** C10. A line of whitespace only that is not the empty string is not
    skipped when it stands between two parts of the text that hold other
    characters: the test for the empty string comes before the line is
    stripped, the stripped line splits into one field, and the whole parse
    raises.  The same line at the very start or at the very end of the
    text is removed by the strip of the whole text and changes nothing. *)
Theorem parse_versions_whitespace_line (a w b : str) :
  blank w = true -> w <> [] -> ~ In nl w ->
  blank a = false -> blank b = false ->
  parse_versions (a ++ nl :: w ++ nl :: b) = Raise ValueError
  /\ parse_versions (w ++ nl :: b) = parse_versions b
  /\ parse_versions (a ++ nl :: w) = parse_versions a.
Proof.
  intros Hw Hne Hnl Ha Hb. split; [| split].
  - apply parse_versions_raise_at with (l := w).
    + assert (E : forall x y : str,
                 x ++ nl :: w ++ nl :: y = (x ++ nl :: w ++ [nl]) ++ y).
      { intros x y. rewrite <- app_assoc. cbn [app].
        rewrite <- app_assoc. reflexivity. }
      unfold strip. rewrite lstrip_app_not_blank by exact Ha.
      rewrite E, rstrip_app_not_blank by exact Hb.
      rewrite <- E.
      apply In_split_between, Hnl.
    + exact Hne.
    + rewrite strip_blank by exact Hw. apply split_nil_length.
  - unfold parse_versions.
    change (w ++ nl :: b) with (w ++ [nl] ++ b). rewrite app_assoc.
    rewrite strip_app_blank_l; [reflexivity |].
    rewrite blank_app, Hw. reflexivity.
  - unfold parse_versions.
    rewrite (@strip_app_blank_r a (nl :: w)); [reflexivity |].
    cbn [blank forallb]. fold (blank w). rewrite Hw. reflexivity.
Qed.

Lemma parse_versions_whitespace_line_witness :
  parse_versions (lit "0.45.11,250207y6nbaw5qc
 
0.45.10,250205buadkzpea") = Raise ValueError
  /\ parse_versions (lit " 
0.45.10,250205buadkzpea")
     = parse_versions (lit "0.45.10,250205buadkzpea")
  /\ parse_versions (lit "0.45.11,250207y6nbaw5qc
 ")
     = parse_versions (lit "0.45.11,250207y6nbaw5qc").
Proof.
  apply (@parse_versions_whitespace_line
           (lit "0.45.11,250207y6nbaw5qc") (lit " ")
           (lit "0.45.10,250205buadkzpea")).
  - reflexivity.
  - vm_compute. discriminate.
  - vm_compute. intros [H | []]. discriminate H.
  - reflexivity.
  - reflexivity.
Defined.

Lemma In_lstrip (x : char) (s : str) : In x (lstrip s) -> In x s.
Proof.
  induction s as [| c s IH]; cbn [lstrip]; [tauto |].
  destruct (isspace c); [| tauto].
  intros H. right. apply IH, H.
Qed.

Lemma In_strip (x : char) (s : str) : In x (strip s) -> In x s.
Proof.
  unfold strip, rstrip. intros H.
  apply (proj2 (in_rev _ _)), In_lstrip in H.
  apply (proj2 (in_rev _ _)), In_lstrip in H. exact H.
Qed.

Lemma strip_strip (s : str) : strip (strip s) = strip s.
Proof.
  unfold strip at 2. rewrite strip_rstrip, strip_lstrip. reflexivity.
Qed.

Lemma split_two (sep : char) (v b : str) :
  ~ In sep v -> ~ In sep b -> split sep (v ++ sep :: b) = [v; b].
Proof.
  intros Hv Hb.
  rewrite (@split_one_sep sep v b Hv), (@split_no_sep sep b Hb).
  reflexivity.
Qed.

(** C2, as the code has it.  A line that is not blank and whose stripped
    text holds exactly one comma yields the record of the text before the
    comma and the text after it, whatever these two texts hold: as the
    single line of a text it parses to that one record, and in the loop
    it appends that record and goes on.  (The split is at every comma, so
    a line with a second comma is rejected; see C3.) *)
Theorem parse_versions_one_comma (line v b : str) :
  ~ In nl line ->
  strip line = v ++ comma :: b -> ~ In comma v -> ~ In comma b ->
  parse_versions line = Ok [mkCursorVersion v b]
  /\ forall rest acc,
       parse_lines (line :: rest) acc
       = parse_lines rest (acc ++ [mkCursorVersion v b]).
Proof.
  intros Hnl Hs Hv Hb.
  assert (Hsplit : split comma (strip line) = [v; b]).
  { rewrite Hs. apply split_two; assumption. }
  assert (Hstep : forall l rest acc,
             l <> [] -> strip l = strip line ->
             parse_lines (l :: rest) acc
             = parse_lines rest (acc ++ [mkCursorVersion v b])).
  { intros l rest acc Hl El. cbn [parse_lines].
    destruct l as [| c l]; [congruence |]. cbn [is_empty].
    rewrite El, Hsplit. reflexivity. }
  split.
  - unfold parse_versions.
    rewrite split_no_sep by (intros H; apply Hnl, In_strip, H).
    rewrite Hstep; [reflexivity | | apply strip_strip].
    rewrite Hs. destruct v; discriminate.
  - intros rest acc. apply Hstep; [| reflexivity].
    intros ->. destruct v; discriminate Hs.
Qed.

Lemma parse_versions_one_comma_witness :
  parse_versions (lit "  0.45.11,250207y6nbaw5qc ")
  = Ok [mkCursorVersion (lit "0.45.11") (lit "250207y6nbaw5qc")]
  /\ forall rest acc,
       parse_lines (lit "  0.45.11,250207y6nbaw5qc " :: rest) acc
       = parse_lines rest
           (acc ++ [mkCursorVersion (lit "0.45.11") (lit "250207y6nbaw5qc")]).
Proof.
  apply parse_versions_one_comma.
  - vm_compute. intuition discriminate.
  - vm_compute. reflexivity.
  - vm_compute. intuition discriminate.
  - vm_compute. intuition discriminate.
Defined.

(** C2 as stated fails: a line with a second comma is not split at its
    first comma into [0.45.11] and [250207,y6nbaw5qc]; the parse raises. *)
Lemma parse_versions_first_comma_counterexample :
  parse_versions (lit "0.45.11,250207,y6nbaw5qc") = Raise ValueError
  /\ parse_versions (lit "0.45.11,250207,y6nbaw5qc")
     <> Ok [mkCursorVersion (lit "0.45.11") (lit "250207,y6nbaw5qc")].
Proof.
  split; [vm_compute; reflexivity | vm_compute; discriminate].
Qed.

(* ================================================================= *)
(** ** Round trip *)

Lemma lstrip_length (s : str) : length (lstrip s) <= length s.
Proof.
  induction s as [| c s IH]; cbn [lstrip length]; [lia |].
  destruct (isspace c); cbn [length]; lia.
Qed.

Lemma lstrip_fixed_app (v x : str) :
  lstrip v = v -> lstrip x = x -> lstrip (v ++ x) = v ++ x.
Proof.
  destruct v as [| c v]; cbn [app lstrip]; [tauto |].
  destruct (isspace c); [| reflexivity].
  intros H _. exfalso.
  pose proof (lstrip_length v) as L. rewrite H in L. cbn [length] in L. lia.
Qed.

Lemma rstrip_fixed_app (x b : str) :
  rstrip x = x -> rstrip b = b -> rstrip (x ++ b) = x ++ b.
Proof.
  unfold rstrip. intros Hx Hb.
  apply (f_equal (@rev char)) in Hx, Hb. rewrite rev_involutive in Hx, Hb.
  rewrite rev_app_distr, lstrip_fixed_app by assumption.
  rewrite rev_app_distr, !rev_involutive. reflexivity.
Qed.

Lemma strip_serialize_record (r : CursorVersion) :
  plain r -> strip (serialize_record r) = serialize_record r.
Proof.
  intros (_ & _ & _ & _ & Hv & Hb). unfold strip, serialize_record.
  rewrite lstrip_fixed_app by (exact Hv || reflexivity).
  change (version r ++ comma :: build_id r)
    with (version r ++ [comma] ++ build_id r).
  rewrite app_assoc. apply rstrip_fixed_app; [| exact Hb].
  unfold rstrip. rewrite rev_app_distr. cbn [rev app lstrip].
  rewrite isspace_comma. cbn [rev]. rewrite rev_involutive. reflexivity.
Qed.

Lemma In_serialize_record (x : char) (r : CursorVersion) :
  x <> comma -> ~ In x (version r) -> ~ In x (build_id r) ->
  ~ In x (serialize_record r).
Proof.
  intros Hx Hv Hb H. unfold serialize_record in H.
  apply in_app_or in H. destruct H as [H | [H | H]]; [tauto | | tauto].
  apply Hx. symmetry. exact H.
Qed.

Lemma split_serialize (rs : list CursorVersion) :
  Forall plain rs ->
  split nl (serialize rs) = map serialize_record rs ++ [[]].
Proof.
  induction 1 as [| r rs Hr _ IH]; [reflexivity |].
  unfold serialize in *. cbn [map concat app].
  rewrite <- app_assoc. cbn [app].
  rewrite split_one_sep, IH; [reflexivity |].
  destruct Hr as (_ & Hv & _ & Hb & _).
  apply In_serialize_record; [discriminate | assumption | assumption].
Qed.

Lemma serialize_record_not_nil (r : CursorVersion) : serialize_record r <> [].
Proof. unfold serialize_record. destruct (version r); discriminate. Qed.

Lemma stripped_serialize (rs : list CursorVersion) :
  Forall plain rs ->
  stripped_lines (map serialize_record rs ++ [[]]) = map serialize_record rs.
Proof.
  unfold stripped_lines.
  induction 1 as [| r rs Hr _ IH]; [reflexivity |].
  cbn [map app filter].
  rewrite (nonempty_not_nil (@serialize_record_not_nil r)).
  cbn [map]. rewrite IH, (strip_serialize_record Hr). reflexivity.
Qed.

Lemma record_of_serialize_record (r : CursorVersion) :
  plain r -> split comma (serialize_record r) = [version r; build_id r].
Proof.
  intros (Hv & _ & Hb & _). apply split_two; assumption.
Qed.

(** C5, as the code has it.  For every list of N records whose fields
    hold no comma and no line feed, whose versions do not start and whose
    build ids do not end with whitespace, parsing the text that writes
    them one [version,build_id] line each returns exactly these N records,
    fields and order unchanged. *)
Theorem parse_versions_serialize (rs : list CursorVersion) :
  Forall plain rs ->
  parse_versions (serialize rs) = Ok rs
  /\ (forall rs', parse_versions (serialize rs) = Ok rs' ->
                  length rs' = length rs).
Proof.
  intros H.
  assert (E : parse_versions (serialize rs) = Ok rs).
  { rewrite parse_versions_lines, (split_serialize H), (stripped_serialize H).
    rewrite trim_id.
    2:{ apply Forall_forall. intros s Hs. apply in_map_iff in Hs.
        destruct Hs as [r [<- _]]. apply serialize_record_not_nil. }
    rewrite parse_stripped_ok.
    2:{ apply Forall_forall. intros s Hs. apply in_map_iff in Hs.
        destruct Hs as [r [<- Hr]].
        rewrite (record_of_serialize_record
                   (proj1 (Forall_forall _ _) H r Hr)).
        reflexivity. }
    cbn [app]. f_equal. rewrite map_map.
    rewrite <- (map_id rs) at 2. apply map_ext_in. intros r Hr.
    unfold record_of.
    rewrite (record_of_serialize_record (proj1 (Forall_forall _ _) H r Hr)).
    destruct r. reflexivity. }
  split; [exact E |].
  intros rs' E'. rewrite E in E'. injection E' as <-. reflexivity.
Qed.

Lemma parse_versions_serialize_witness :
  parse_versions
    (serialize [ mkCursorVersion (lit "0.45.11") (lit "250207y6nbaw5qc");
                 mkCursorVersion (lit "0.45.10") (lit "250205buadkzpea") ])
  = Ok [ mkCursorVersion (lit "0.45.11") (lit "250207y6nbaw5qc");
         mkCursorVersion (lit "0.45.10") (lit "250205buadkzpea") ].
Proof.
  apply parse_versions_serialize.
  repeat constructor; vm_compute; try reflexivity; intuition discriminate.
Defined.

(** C5 as stated fails for records whose fields hold a comma, a line
    feed, or whitespace at the outer ends: the parse raises or returns
    other records. *)
Lemma parse_versions_serialize_counterexample :
  parse_versions (serialize [ mkCursorVersion (lit "1,0") (lit "abc") ])
    <> Ok [ mkCursorVersion (lit "1,0") (lit "abc") ]
  /\ parse_versions (serialize [ mkCursorVersion (lit "1.0") (lit "abc
def") ])
    <> Ok [ mkCursorVersion (lit "1.0") (lit "abc
def") ]
  /\ parse_versions (serialize [ mkCursorVersion (lit " 1.0") (lit "abc ") ])
    <> Ok [ mkCursorVersion (lit " 1.0") (lit "abc ") ].
Proof.
  repeat split; vm_compute; discriminate.
Qed.

(* ================================================================= *)
(** ** More on the link generator *)

Lemma eqb_eq (a b : str) : PyStr.eqb a b = true <-> a = b.
Proof.
  revert b. induction a as [| x a IH]; intros [| y b]; cbn [PyStr.eqb];
    try (split; [discriminate | discriminate]).
  - split; reflexivity.
  - rewrite andb_true_iff, N.eqb_eq, IH. split.
    + intros [-> ->]. reflexivity.
    + intros E. injection E as -> ->. split; reflexivity.
Qed.

(** [d[key]] on a dictionary whose keys are pairwise different. *)
Lemma getitem_Ok {V : Type} (d : dict V) (key : str) (v : V) :
  NoDup (map fst d) -> (getitem d key = Ok v <-> In (key, v) d).
Proof.
  induction d as [| [k w] d IH]; cbn [getitem map fst In]; intros ND.
  - split; [discriminate | tauto].
  - inversion ND as [| ? ? Hk ND']; subst.
    destruct (PyStr.eqb k key) eqn:E.
    + apply eqb_eq in E. subst key. split.
      * intros H. injection H as ->. left. reflexivity.
      * intros [H | H]; [injection H as ->; reflexivity |].
        exfalso. apply Hk. apply (in_map fst) in H. exact H.
    + rewrite (IH ND'). split; [tauto |].
      intros [H | H]; [| exact H].
      injection H as -> ->.
      rewrite (proj2 (eqb_eq key key) eq_refl) in E. discriminate E.
Qed.

Lemma getitem_Raise {V : Type} (d : dict V) (key : str) :
  ~ In key (map fst d) -> getitem d key = Raise KeyError.
Proof.
  induction d as [| [k w] d IH]; cbn [getitem map fst In]; intros H.
  - reflexivity.
  - destruct (PyStr.eqb k key) eqn:E; [| apply IH; tauto].
    apply eqb_eq in E. tauto.
Qed.

Lemma In_entries (links : dict (dict str)) (p a u : str) :
  In (p, a, u) (entries links)
  <-> exists archs, In (p, archs) links /\ In (a, u) archs.
Proof.
  unfold entries. rewrite in_flat_map. split.
  - intros [[p' archs] [Hl H]]. cbn [fst snd] in H.
    apply in_map_iff in H. destruct H as [[a' u'] [E H]]. cbn [fst snd] in E.
    injection E as -> -> ->. exists archs. split; assumption.
  - intros [archs [Hl H]]. exists (p, archs). split; [exact Hl |].
    cbn [fst snd]. apply in_map_iff. exists (a, u). split; [reflexivity |].
    exact H.
Qed.

(** [links[platform][arch]] on a two-level dictionary with pairwise
    different keys at both levels. *)
Lemma subscript2_Ok (links : dict (dict str)) (p a u : str) :
  NoDup (map fst links) ->
  Forall (fun pa : str * dict str => NoDup (map fst (snd pa))) links ->
  (subscript2 links p a = Ok u <-> In (p, a, u) (entries links)).
Proof.
  intros ND NDs. rewrite In_entries. unfold subscript2. split.
  - destruct (getitem links p) as [archs | e] eqn:E; cbn [bind];
      [| discriminate].
    apply (getitem_Ok _ _ _ ND) in E. intros H. exists archs.
    split; [exact E |].
    apply getitem_Ok in H; [exact H |].
    exact (proj1 (Forall_forall _ _) NDs _ E).
  - intros [archs [Hl H]].
    rewrite (proj2 (getitem_Ok _ _ _ ND) Hl). cbn [bind].
    apply getitem_Ok; [| exact H].
    exact (proj1 (Forall_forall _ _) NDs _ Hl).
Qed.

Lemma subscript2_Raise (links : dict (dict str)) (p a : str) :
  NoDup (map fst links) ->
  (forall u, ~ In (p, a, u) (entries links)) ->
  subscript2 links p a = Raise KeyError.
Proof.
  intros ND H. unfold subscript2.
  destruct (getitem links p) as [archs | e] eqn:E; cbn [bind].
  - apply (getitem_Ok _ _ _ ND) in E. apply getitem_Raise.
    intros Ha. apply in_map_iff in Ha. destruct Ha as [[a' u] [Ea Ha]].
    cbn [fst] in Ea. subst a'.
    apply (H u), In_entries. exists archs. split; assumption.
  - f_equal.
    clear -E. induction links as [| [k w] d IH]; cbn [getitem] in E.
    + injection E as <-. reflexivity.
    + destruct (PyStr.eqb k p); [discriminate E | exact (IH E)].
Qed.

Lemma get_download_links_keys (v : CursorVersion) :
  NoDup (map fst (get_download_links v))
  /\ Forall (fun pa : str * dict str => NoDup (map fst (snd pa)))
            (get_download_links v).
Proof.
  unfold get_download_links. cbn [map fst snd]. split.
  - repeat constructor; cbn [In]; intro H;
      repeat destruct H as [H | H]; try discriminate H; exact H.
  - repeat constructor; cbn [In]; intro H;
      repeat destruct H as [H | H]; try discriminate H; exact H.
Qed.

Lemma spec_url_unfold (b s : str) :
  spec_url b s = lit "https://downloader.cursor.sh/builds/" ++ b ++ s.
Proof. reflexivity. Qed.

Lemma In_spec_entries (b p a u : str) :
  In (p, a, u) (spec_entries b)
  <-> exists s, In (p, a, s) suffix_table /\ u = spec_url b s.
Proof.
  unfold spec_entries. rewrite in_map_iff. split.
  - intros [[[p' a'] s] [E He]]. cbn [fst snd] in E.
    injection E as -> -> <-. exists s. split; [exact He | reflexivity].
  - intros [s [He ->]]. exists (p, a, s). split; [reflexivity | exact He].
Qed.

(** The suffixes of the table end differently, so a URL tells its build
    id and its place in the table. *)
Lemma spec_url_inj (b b' p a s p' a' s' : str) :
  In (p, a, s) suffix_table -> In (p', a', s') suffix_table ->
  spec_url b s = spec_url b' s' -> b = b' /\ p = p' /\ a = a'.
Proof.
  intros He He' H. rewrite !spec_url_unfold in H. apply app_inv_head in H.
  apply (f_equal (@rev char)) in H. rewrite !rev_app_distr in H.
  unfold suffix_table in He, He'. cbn [In] in He, He'.
  destruct He as [He | [He | [He | [He | [He | [He | []]]]]]];
    injection He as <- <- <-;
    destruct He' as [He' | [He' | [He' | [He' | [He' | [He' | []]]]]]];
    injection He' as <- <- <-;
    rev_literals H; cbn [app] in H;
    first [ discriminate H
          | injection H as H; apply (f_equal (@rev char)) in H;
            rewrite !rev_involutive in H;
            split; [exact H | split; reflexivity] ].
Qed.

Lemma In_entries_get_download_links (v : CursorVersion) (p a u : str) :
  In (p, a, u) (entries (get_download_links v))
  <-> exists s, In (p, a, s) suffix_table /\ u = spec_url (build_id v) s.
Proof. rewrite entries_get_download_links. apply In_spec_entries. Qed.

(** X1. The link mapping depends on the build id alone, and tells it: two
    records have the same mapping exactly when they have the same build
    id, whatever their versions. *)
Theorem get_download_links_build_id (v v' : CursorVersion) :
  get_download_links v = get_download_links v' <-> build_id v = build_id v'.
Proof.
  split.
  - intros H.
    assert (T : In (lit "windows", lit "x64", lit "/windows/nsis/x64")
                   suffix_table) by (left; reflexivity).
    assert (Hin : In (lit "windows", lit "x64",
                      spec_url (build_id v) (lit "/windows/nsis/x64"))
                     (entries (get_download_links v))).
    { apply In_entries_get_download_links.
      exists (lit "/windows/nsis/x64"). split; [exact T | reflexivity]. }
    rewrite H in Hin. apply In_entries_get_download_links in Hin.
    destruct Hin as [s [Hs E]].
    exact (proj1 (spec_url_inj T Hs E)).
  - intros E. unfold get_download_links. rewrite E. reflexivity.
Qed.

(** X2. No download URL is shared: when a subscript [links[p][a]] of one
    record and a subscript [links[p'][a']] of another return the same URL,
    the two records have the same build id and the subscripts are the
    same platform and the same architecture.  In particular the six URLs
    of one record are pairwise different. *)
Theorem get_download_links_urls_distinct
  (v v' : CursorVersion) (p a p' a' u : str) :
  subscript2 (get_download_links v) p a = Ok u ->
  subscript2 (get_download_links v') p' a' = Ok u ->
  build_id v = build_id v' /\ p = p' /\ a = a'.
Proof.
  intros H H'.
  destruct (get_download_links_keys v) as [ND NDs].
  destruct (get_download_links_keys v') as [ND' NDs'].
  apply (subscript2_Ok _ _ _ ND NDs) in H.
  apply (subscript2_Ok _ _ _ ND' NDs') in H'.
  apply In_entries_get_download_links in H, H'.
  destruct H as [s [Hs E]]. destruct H' as [s' [Hs' E']].
  rewrite E in E'. exact (spec_url_inj Hs Hs' E').
Qed.

Lemma get_download_links_urls_distinct_witness :
  lit "250207y6nbaw5qc" = lit "250207y6nbaw5qc"
  /\ lit "mac" = lit "mac" /\ lit "arm64" = lit "arm64".
Proof.
  apply (@get_download_links_urls_distinct
           (mkCursorVersion (lit "0.45.11") (lit "250207y6nbaw5qc"))
           (mkCursorVersion (lit "0.45.11-rc") (lit "250207y6nbaw5qc"))
           (lit "mac") (lit "arm64") (lit "mac") (lit "arm64")
           (lit "https://downloader.cursor.sh/builds/250207y6nbaw5qc/mac/installer/arm64"));
    vm_compute; reflexivity.
Defined.

(** X3. The subscript [links[platform][arch]] of a record's link mapping
    returns a URL exactly for the pairs the mapping lists, and that entry's
    URL; for a platform or an architecture outside the six pairs of the
    table it raises [KeyError]. *)
Theorem get_download_links_subscript (v : CursorVersion) (p a : str) :
  (forall u, subscript2 (get_download_links v) p a = Ok u
             <-> In (p, a, u) (entries (get_download_links v)))
  /\ ((forall e, In e suffix_table -> fst e <> (p, a)) ->
      subscript2 (get_download_links v) p a = Raise KeyError).
Proof.
  destruct (get_download_links_keys v) as [ND NDs]. split.
  - intros u. apply subscript2_Ok; assumption.
  - intros H. apply subscript2_Raise; [exact ND |].
    intros u Hu. rewrite entries_get_download_links in Hu.
    unfold spec_entries in Hu. apply in_map_iff in Hu.
    destruct Hu as [[[p' a'] s] [E He]]. cbn [fst snd] in E.
    apply (H _ He). cbn [fst]. congruence.
Qed.

(* ================================================================= *)
(** ** More on the record parser *)

(** The loop only ever adds records to the list it was given. *)
Lemma parse_lines_length (ls : list str) :
  forall acc rs, parse_lines ls acc = Ok rs -> length acc <= length rs.
Proof.
  induction ls as [| l ls IH]; intros acc rs H; cbn [parse_lines] in H.
  - injection H as <-. lia.
  - destruct (is_empty l); [exact (IH _ _ H) |].
    destruct (unpack2 (split comma (strip l))) as [[v b] | e];
      cbn [bind] in H; [| discriminate H].
    apply IH in H. rewrite length_app in H. cbn [length] in H. lia.
Qed.

(** A raise of the loop comes from the unpacking of a line that is not
    empty. *)
Lemma parse_lines_raise_inv (ls : list str) :
  forall acc e,
    parse_lines ls acc = Raise e ->
    e = ValueError
    /\ exists l, In l ls /\ l <> []
                 /\ length (split comma (strip l)) <> 2.
Proof.
  induction ls as [| l ls IH]; intros acc e H; cbn [parse_lines] in H;
    [discriminate H |].
  assert (K : forall acc', parse_lines ls acc' = Raise e ->
              e = ValueError
              /\ exists l0, In l0 (l :: ls) /\ l0 <> []
                            /\ length (split comma (strip l0)) <> 2).
  { intros acc' H'. destruct (IH _ _ H') as [He [l0 [Hin Hl0]]].
    split; [exact He |]. exists l0. split; [right; exact Hin | exact Hl0]. }
  destruct l as [| c l]; cbn [is_empty] in H; [exact (K _ H) |].
  destruct (split comma (strip (c :: l))) as [| v [| b [| d r]]] eqn:E;
    cbn [unpack2 bind] in H; try exact (K _ H);
    (injection H as <-; split; [reflexivity |];
     exists (c :: l); split; [left; reflexivity |];
     split; [discriminate | rewrite E; cbn [length]; lia]).
Qed.

Lemma strip_head (s r : str) (c : char) :
  strip s = c :: r -> isspace c = false.
Proof.
  unfold strip. rewrite strip_comm. apply lstrip_head.
Qed.

(** X4. The parser returns the empty list exactly for the texts of
    whitespace only, the empty text included: any other text gives at
    least one record or an error. *)
Theorem parse_versions_nil_iff (data : str) :
  parse_versions data = Ok [] <-> blank data = true.
Proof.
  split.
  - unfold parse_versions. intros H.
    destruct (strip data) as [| c s] eqn:E; [exact (strip_nil_blank _ E) |].
    exfalso. pose proof (strip_head _ E) as Hc.
    assert (Hnl : N.eqb c nl = false).
    { destruct (N.eqb c nl) eqn:Q; [| reflexivity].
      apply N.eqb_eq in Q. subst c. rewrite isspace_nl in Hc.
      discriminate Hc. }
    cbn [split] in H. rewrite Hnl in H.
    destruct (split nl s) as [| h t]; cbn [parse_lines is_empty] in H.
    + destruct (unpack2 (split comma (strip [c]))) as [[v b] | e];
        cbn [bind] in H; discriminate H.
    + destruct (unpack2 (split comma (strip (c :: h)))) as [[v b] | e];
        cbn [bind] in H; [| discriminate H].
      apply parse_lines_length in H. cbn [app length] in H. lia.
  - intros H. unfold parse_versions. rewrite (strip_blank _ H). reflexivity.
Qed.

(** X5. The parser raises nothing but [ValueError], and only for a
    reason: when it raises, one of the lines of the stripped text is not
    the empty string and its stripped text does not split at commas into
    exactly two parts. *)
Theorem parse_versions_raise_only_malformed (data : str) (e : exn) :
  parse_versions data = Raise e ->
  e = ValueError
  /\ exists l, In l (split nl (strip data)) /\ l <> []
               /\ length (split comma (strip l)) <> 2.
Proof.
  unfold parse_versions. apply parse_lines_raise_inv.
Qed.

Lemma parse_versions_raise_only_malformed_witness :
  ValueError = ValueError
  /\ exists l, In l (split nl (strip (lit "0.45.11,250207y6nbaw5qc
0.45.10
")))
               /\ l <> [] /\ length (split comma (strip l)) <> 2.
Proof.
  apply (@parse_versions_raise_only_malformed (lit "0.45.11,250207y6nbaw5qc
0.45.10
") ValueError).
  vm_compute. reflexivity.
Defined.

Lemma parse_stripped_inv (sls : list str) :
  forall acc rs,
    parse_stripped sls acc = Ok rs ->
    Forall (fun s => length (split comma s) = 2) sls
    /\ rs = acc ++ map record_of sls.
Proof.
  induction sls as [| s sls IH]; intros acc rs H; cbn [parse_stripped] in H.
  - injection H as <-. split; [constructor |].
    cbn [map]. rewrite app_nil_r. reflexivity.
  - destruct (split comma s) as [| v [| b [| d r]]] eqn:E;
      cbn [unpack2 bind] in H; try discriminate H.
    destruct (IH _ _ H) as [HF ->]. split.
    + constructor; [rewrite E; reflexivity | exact HF].
    + cbn [map]. unfold record_of at 2. rewrite E, <- app_assoc.
      reflexivity.
Qed.

Lemma In_drop_empty_inv (xs : list str) (x : str) :
  In x (drop_empty xs) -> In x xs.
Proof.
  induction xs as [| y xs IH]; cbn [drop_empty]; [tauto |].
  destruct (is_empty y); [| tauto].
  intros H. right. exact (IH H).
Qed.

Lemma In_trim_inv (xs : list str) (x : str) : In x (trim xs) -> In x xs.
Proof.
  unfold trim. intros H.
  apply (proj2 (in_rev _ _)), In_drop_empty_inv in H.
  apply (proj2 (in_rev _ _)), In_drop_empty_inv in H. exact H.
Qed.

(** No piece of a split holds the separator. *)
Lemma split_pieces (sep : char) (s p : str) :
  In p (split sep s) -> ~ In sep p.
Proof.
  revert p. induction s as [| c s IH]; intros p; cbn [split].
  - intros [<- | []] [].
  - destruct (N.eqb c sep) eqn:Q.
    + intros [<- | H]; [intros [] | exact (IH _ H)].
    + apply N.eqb_neq in Q.
      destruct (split sep s) as [| h t].
      * intros [<- | []] [E | []]. exact (Q E).
      * intros [<- | H].
        -- intros [E | E]; [exact (Q E) |].
           exact (IH h (or_introl eq_refl) E).
        -- exact (IH p (or_intror H)).
Qed.

Lemma lstrip_strip (s : str) : lstrip (strip s) = strip s.
Proof. unfold strip. rewrite strip_comm. apply lstrip_idem. Qed.

Lemma rstrip_strip (s : str) : rstrip (strip s) = strip s.
Proof. unfold strip. apply rstrip_idem. Qed.

Lemma lstrip_fixed_prefix (v x : str) :
  lstrip (v ++ x) = v ++ x -> lstrip v = v.
Proof.
  destruct v as [| c v]; [reflexivity |].
  cbn [app lstrip]. destruct (isspace c); [| reflexivity].
  intros H. exfalso.
  pose proof (lstrip_length (v ++ x)) as L. rewrite H in L.
  cbn [length] in L. lia.
Qed.

Lemma rstrip_fixed_suffix (x b : str) :
  rstrip (x ++ b) = x ++ b -> rstrip b = b.
Proof.
  unfold rstrip. intros H.
  apply (f_equal (@rev char)) in H.
  rewrite rev_involutive, rev_app_distr in H.
  apply lstrip_fixed_prefix in H. rewrite H. apply rev_involutive.
Qed.

(** The record of a stripped line of the text is plain. *)
Lemma record_of_strip_plain (l : str) :
  ~ In nl l -> length (split comma (strip l)) = 2 ->
  plain (record_of (strip l)).
Proof.
  intros Hnl H2. unfold record_of.
  destruct (split comma (strip l)) as [| v [| b [| d r]]] eqn:E;
    try discriminate H2.
  pose proof (split_two_fields _ _ E) as Es.
  assert (Hv : ~ In comma v).
  { apply (@split_pieces comma (strip l)). rewrite E. left. reflexivity. }
  assert (Hb : ~ In comma b).
  { apply (@split_pieces comma (strip l)). rewrite E.
    right. left. reflexivity. }
  assert (Hn : forall x, In x (v ++ comma :: b) -> x <> nl).
  { intros x Hx ->. apply Hnl, In_strip. rewrite Es. exact Hx. }
  unfold plain. cbn [version build_id].
  repeat split.
  - exact Hv.
  - intros H. apply (Hn nl); [| reflexivity].
    apply in_or_app. left. exact H.
  - exact Hb.
  - intros H. apply (Hn nl); [| reflexivity].
    apply in_or_app. right. right. exact H.
  - apply lstrip_fixed_prefix with (x := comma :: b).
    rewrite <- Es. apply lstrip_strip.
  - apply rstrip_fixed_suffix with (x := v ++ [comma]).
    rewrite <- app_assoc. cbn [app]. rewrite <- Es. apply rstrip_strip.
Qed.

(** X6. What every record the parser returns satisfies: neither field
    holds a comma or a line feed, the version does not start with
    whitespace and the build id does not end with whitespace. *)
Theorem parse_versions_records_plain (data : str) (rs : list CursorVersion) :
  parse_versions data = Ok rs -> Forall plain rs.
Proof.
  rewrite parse_versions_lines. intros H.
  apply parse_stripped_inv in H. destruct H as [H2 ->]. cbn [app].
  apply Forall_forall. intros r Hr.
  apply in_map_iff in Hr. destruct Hr as [s [<- Hs]].
  pose proof (proj1 (Forall_forall _ _) H2 s Hs) as Hlen.
  apply In_trim_inv in Hs. unfold stripped_lines in Hs.
  apply in_map_iff in Hs. destruct Hs as [l [<- Hl]].
  apply filter_In in Hl. destruct Hl as [Hl _].
  apply record_of_strip_plain; [| exact Hlen].
  exact (split_pieces _ _ _ Hl).
Qed.

Lemma parse_versions_records_plain_witness :
  Forall plain [ mkCursorVersion (lit "0.45.11") (lit "250207 y6nbaw5qc");
                 mkCursorVersion (lit "") (lit "") ].
Proof.
  apply (@parse_versions_records_plain (lit "
   0.45.11,250207 y6nbaw5qc  
,
")).
  vm_compute. reflexivity.
Defined.

(** X7. Whitespace at the two ends of a line does not count: two texts
    whose lines other than the empty string have, in order, the same
    stripped texts have the same parse, be it the records or the
    error. *)
Theorem parse_versions_stripped_lines (data data' : str) :
  map strip (filter nonempty (split nl data))
  = map strip (filter nonempty (split nl data')) ->
  parse_versions data = parse_versions data'.
Proof.
  intros H. rewrite !parse_versions_lines. unfold stripped_lines.
  rewrite H. reflexivity.
Qed.

Lemma parse_versions_stripped_lines_witness :
  parse_versions (lit "  0.45.11,250207y6nbaw5qc

	0.45.10,250205buadkzpea  ")
  = parse_versions (lit "0.45.11,250207y6nbaw5qc
0.45.10,250205buadkzpea").
Proof.
  apply parse_versions_stripped_lines. vm_compute. reflexivity.
Defined.

Lemma split_app (sep : char) (a b : str) :
  split sep (a ++ sep :: b) = split sep a ++ split sep b.
Proof.
  rewrite split_app_sep, app_assoc.
  rewrite <- app_removelast_last by apply split_not_nil. reflexivity.
Qed.

(** The loop started on a list of records is the loop started on the empty
    list, with its records added behind. *)
Lemma parse_lines_acc (ls : list str) :
  forall acc,
    parse_lines ls acc = (rs <- parse_lines ls [] ;; Ok (acc ++ rs)).
Proof.
  induction ls as [| l ls IH]; intros acc; cbn [parse_lines].
  - cbn [bind]. rewrite app_nil_r. reflexivity.
  - destruct (is_empty l); [apply IH |].
    destruct (unpack2 (split comma (strip l))) as [[v b] | e]; cbn [bind];
      [| reflexivity].
    rewrite (IH (acc ++ _)), (IH ([] ++ _)).
    destruct (parse_lines ls []) as [rs | e]; cbn [bind]; [| reflexivity].
    rewrite <- app_assoc. reflexivity.
Qed.

Lemma parse_lines_app (xs ys : list str) :
  forall acc,
    parse_lines (xs ++ ys) acc
    = (rs <- parse_lines xs acc ;; parse_lines ys rs).
Proof.
  induction xs as [| l xs IH]; intros acc; cbn [app parse_lines].
  - reflexivity.
  - destruct (is_empty l); [apply IH |].
    destruct (unpack2 (split comma (strip l))) as [[v b] | e]; cbn [bind];
      [apply IH | reflexivity].
Qed.

Lemma rstrip_fixed_blank (a : str) : rstrip a = a -> blank a = true -> a = [].
Proof. intros H B. rewrite <- H. apply rstrip_blank, B. Qed.

Lemma lstrip_fixed_blank (b : str) : lstrip b = b -> blank b = true -> b = [].
Proof. intros H B. rewrite <- H. apply lstrip_blank, B. Qed.

(** X8. Texts compose: when [a] does not end and [b] does not start with
    whitespace, parsing [a], a line feed and [b] is parsing [a], then
    [b], and appending the records; the first error, if any, is the
    result. *)
Theorem parse_versions_join (a b : str) :
  rstrip a = a -> lstrip b = b ->
  parse_versions (a ++ nl :: b)
  = (ra <- parse_versions a ;; rb <- parse_versions b ;; Ok (ra ++ rb)).
Proof.
  intros Ha Hb.
  destruct (blank a) eqn:Ba.
  { rewrite (rstrip_fixed_blank Ha Ba). cbn [app].
    change (nl :: b) with ([nl] ++ b).
    unfold parse_versions at 1 2.
    rewrite strip_app_blank_l by reflexivity.
    change (strip []) with (@nil char). cbn [split parse_lines is_empty bind].
    fold (parse_versions b).
    destruct (parse_versions b); reflexivity. }
  destruct (blank b) eqn:Bb.
  { rewrite (lstrip_fixed_blank Hb Bb).
    unfold parse_versions at 1 3.
    rewrite strip_app_blank_r by reflexivity.
    change (strip []) with (@nil char). cbn [split parse_lines is_empty bind].
    fold (parse_versions a).
    destruct (parse_versions a) as [ra | e]; cbn [bind]; [| reflexivity].
    rewrite app_nil_r. reflexivity. }
  assert (E : strip (a ++ nl :: b) = strip a ++ nl :: strip b).
  { unfold strip. rewrite lstrip_app_not_blank by exact Ba.
    assert (Bnb : blank (nl :: b) = false).
    { cbn [blank forallb]. fold (blank b). rewrite Bb. apply andb_false_r. }
    rewrite rstrip_app_not_blank by exact Bnb.
    rewrite Hb, (strip_comm a), Ha.
    change (nl :: b) with ([nl] ++ b).
    rewrite rstrip_app_not_blank by exact Bb. reflexivity. }
  unfold parse_versions. rewrite E, split_app, parse_lines_app.
  destruct (parse_lines (split nl (strip a)) []) as [ra | e]; cbn [bind];
    [| reflexivity].
  apply parse_lines_acc.
Qed.

Lemma parse_versions_join_witness :
  parse_versions (lit "0.45.11,250207y6nbaw5qc
0.45.10,250205buadkzpea" ++ nl :: lit "0.45.9,250202tgstl42dt")
  = (ra <- parse_versions (lit "0.45.11,250207y6nbaw5qc
0.45.10,250205buadkzpea") ;;
     rb <- parse_versions (lit "0.45.9,250202tgstl42dt") ;;
     Ok (ra ++ rb)).
Proof.
  apply parse_versions_join; vm_compute; reflexivity.
Defined.

Lemma split_join (ls : list str) :
  ls <> [] -> Forall (fun l => ~ In nl l) ls ->
  split nl (join [nl] ls) = ls.
Proof.
  induction ls as [| l ls IH]; intros Hne H; [congruence |].
  inversion H as [| ? ? Hl Hls]; subst.
  destruct ls as [| l' ls'].
  - cbn [join]. apply split_no_sep, Hl.
  - change (join [nl] (l :: l' :: ls'))
      with (l ++ nl :: join [nl] (l' :: ls')).
    rewrite (@split_one_sep nl l _ Hl), IH; [reflexivity | discriminate | exact Hls].
Qed.

Lemma split_join_crlf (ls : list str) :
  ls <> [] -> Forall (fun l => ~ In nl l) ls ->
  split nl (join [cr; nl] ls) = crlf_lines ls.
Proof.
  induction ls as [| l ls IH]; intros Hne H; [congruence |].
  inversion H as [| ? ? Hl Hls]; subst.
  destruct ls as [| l' ls'].
  - cbn [join crlf_lines]. apply split_no_sep, Hl.
  - change (join [cr; nl] (l :: l' :: ls'))
      with (l ++ cr :: nl :: join [cr; nl] (l' :: ls')).
    change (l ++ cr :: nl :: join [cr; nl] (l' :: ls'))
      with (l ++ [cr] ++ nl :: join [cr; nl] (l' :: ls')).
    rewrite app_assoc, split_one_sep.
    + rewrite IH; [reflexivity | discriminate | exact Hls].
    + intros Hin. apply in_app_or in Hin.
      destruct Hin as [Hin | [Hin | []]]; [exact (Hl Hin) | discriminate Hin].
Qed.

Lemma stripped_crlf_lines (ls : list str) :
  Forall (fun l : str => l <> []) ls ->
  stripped_lines (crlf_lines ls) = stripped_lines ls.
Proof.
  unfold stripped_lines.
  induction 1 as [| l ls Hl Hls IH]; [reflexivity |].
  destruct ls as [| l' ls']; [reflexivity |].
  change (crlf_lines (l :: l' :: ls'))
    with ((l ++ [cr]) :: crlf_lines (l' :: ls')).
  cbn [filter]. rewrite (nonempty_not_nil Hl).
  assert (Hc : nonempty (l ++ [cr]) = true).
  { apply nonempty_not_nil. destruct l; discriminate. }
  rewrite Hc. cbn [map]. rewrite IH.
  rewrite strip_app_blank_r by reflexivity. reflexivity.
Qed.

(** X11. Windows line ends are taken as line feeds: for lines none of
    which is the empty string, the text that ends them by a carriage
    return and a line feed parses as the text that ends them by a line
    feed, with or without line end after the last line.  (An empty line
    between two such line ends is a line of a carriage return only, which
    is not skipped.) *)
Theorem parse_versions_crlf (ls : list str) :
  Forall (fun l => l <> [] /\ ~ In nl l) ls ->
  parse_versions (join [cr; nl] ls) = parse_versions (join [nl] ls)
  /\ parse_versions (join [cr; nl] ls ++ [cr; nl])
     = parse_versions (join [nl] ls).
Proof.
  intros H.
  assert (E : parse_versions (join [cr; nl] ls)
              = parse_versions (join [nl] ls)).
  { destruct ls as [| l0 ls0] eqn:Els; [reflexivity |]. rewrite <- Els in *.
    assert (Hne : ls <> []) by (rewrite Els; discriminate).
    assert (Hnl : Forall (fun l => ~ In nl l) ls).
    { revert H. apply Forall_impl. intros l [_ Hl]. exact Hl. }
    assert (Hnn : Forall (fun l : str => l <> []) ls).
    { revert H. apply Forall_impl. intros l [Hl _]. exact Hl. }
    rewrite !parse_versions_lines.
    rewrite (split_join_crlf Hne Hnl), (split_join Hne Hnl).
    rewrite (stripped_crlf_lines Hnn). reflexivity. }
  split; [exact E |].
  rewrite <- E. unfold parse_versions.
  rewrite strip_app_blank_r by reflexivity. reflexivity.
Qed.

Lemma parse_versions_crlf_witness :
  parse_versions (join [cr; nl] [ lit "0.45.11,250207y6nbaw5qc";
                                  lit "0.45.10,250205buadkzpea" ])
  = parse_versions (join [nl] [ lit "0.45.11,250207y6nbaw5qc";
                                lit "0.45.10,250205buadkzpea" ])
  /\ parse_versions (join [cr; nl] [ lit "0.45.11,250207y6nbaw5qc";
                                     lit "0.45.10,250205buadkzpea" ]
                     ++ [cr; nl])
     = parse_versions (join [nl] [ lit "0.45.11,250207y6nbaw5qc";
                                   lit "0.45.10,250205buadkzpea" ]).
Proof.
  apply parse_versions_crlf.
  repeat constructor; vm_compute; intuition discriminate.
Defined.

(* ================================================================= *)
(** ** The entry point *)

(** X9. [main] as it is written raises [ValueError] in the parse of its
    embedded text, before any of the three files is opened: the third line
    of that text, the placeholder [# ... 更多版本数据 ...], holds no comma
    and splits into one part. *)
Theorem main_raises_ValueError :
  main = Raise ValueError
  /\ parse_versions main_data = Raise ValueError
  /\ In (lit "# ... 更多版本数据 ...") (split nl (strip main_data))
  /\ split comma (strip (lit "# ... 更多版本数据 ..."))
     = [lit "# ... 更多版本数据 ..."].
Proof.
  split; [vm_compute; reflexivity |].
  split; [vm_compute; reflexivity |].
  split; [| vm_compute; reflexivity].
  vm_compute. right. right. left. reflexivity.
Qed.

(* ================================================================= *)
(** ** The text of the table *)

Lemma csv_plain_not_special (f : str) :
  csv_plain f = true -> existsb csv_special f = false.
Proof.
  unfold csv_plain. induction f as [| c f IH]; cbn [forallb existsb];
    [reflexivity |].
  intros H. apply andb_true_iff in H. destruct H as [Hc Hf].
  apply negb_true_iff, orb_false_iff in Hc. destruct Hc as [Hc _].
  rewrite Hc, (IH Hf). reflexivity.
Qed.

Lemma csv_field_plain_row (f : str) :
  csv_plain f = true -> csv_field false f = f.
Proof.
  intros H. unfold csv_field. rewrite (csv_plain_not_special _ H).
  reflexivity.
Qed.

Lemma csv_plain_app (a b : str) :
  csv_plain (a ++ b) = csv_plain a && csv_plain b.
Proof. unfold csv_plain. apply forallb_app. Qed.

Lemma csv_record_plain (a b c d : str) :
  csv_plain a = true -> csv_plain b = true -> csv_plain c = true ->
  csv_plain d = true ->
  csv_record [a; b; c; d] = join [comma] [a; b; c; d] ++ [cr; nl].
Proof.
  intros Ha Hb Hc Hd. unfold csv_record. cbn [map].
  rewrite !csv_field_plain_row by assumption. reflexivity.
Qed.

Lemma csv_plain_spec_url (b p a s : str) :
  csv_plain b = true -> In (p, a, s) suffix_table ->
  csv_plain p = true /\ csv_plain a = true
  /\ csv_plain (spec_url b s) = true.
Proof.
  intros Hb He. rewrite spec_url_unfold, !csv_plain_app, Hb.
  unfold suffix_table in He. cbn [In] in He.
  destruct He as [He | [He | [He | [He | [He | [He | []]]]]]];
    injection He as <- <- <-;
    repeat split; vm_compute; reflexivity.
Qed.

(** X10. For records whose version and build id hold no comma, no double
    quote, no carriage return, no line feed and no NUL, the text of the
    table has no quoting at all: each row, the header included, is its
    four fields joined by commas and ended by a carriage return and a line
    feed. *)
Theorem main_csv_text_plain (versions : list CursorVersion) :
  Forall (fun v => csv_plain (version v) = true
                   /\ csv_plain (build_id v) = true) versions ->
  csv_text (main_csv versions)
  = concat (map (fun r => join [comma] r ++ [cr; nl]) (main_csv versions)).
Proof.
  intros H. unfold csv_text. f_equal. apply map_ext_in. intros r Hr.
  unfold main_csv, writerow in Hr. rewrite csv_loop_rows in Hr.
  cbn [app] in Hr. destruct Hr as [<- | Hr]; [vm_compute; reflexivity |].
  apply in_flat_map in Hr. destruct Hr as [v [Hv Hr]].
  destruct (proj1 (Forall_forall _ _) H v Hv) as [Pv Pb].
  unfold csv_rows_of in Hr. apply in_map_iff in Hr.
  destruct Hr as [[[p a] s] [<- He]]. cbn [fst snd].
  destruct (csv_plain_spec_url _ Pb He) as (Pp & Pa & Pu).
  apply csv_record_plain; assumption.
Qed.

Lemma main_csv_text_plain_witness :
  csv_text (main_csv [mkCursorVersion (lit "0.45.11") (lit "250207y6nbaw5qc")])
  = concat (map (fun r => join [comma] r ++ [cr; nl])
                (main_csv [mkCursorVersion (lit "0.45.11")
                                           (lit "250207y6nbaw5qc")])).
Proof.
  apply main_csv_text_plain.
  constructor; [split; vm_compute; reflexivity | constructor].
Defined.
